(** * MemeManager (core/meme.py): a shallow embedding and its properties

    The manager is a facade over the external meme-generator library.  Its
    own state is three attributes ([memes], [meme_keywords],
    [_memes_loaded]); everything else is a call into the library, the
    platform logger or the parameter collector.  Methods are embedded in a
    small state-and-exception monad over a [World] that holds the manager
    and a record of the external calls made so far. *)

From Stdlib Require Import List Bool ZArith NArith Lia Ascii String DecimalString.
Import ListNotations.

Set Implicit Arguments.

(** ** Python strings and bytes *)

(** A Python [str] is a sequence of Unicode code points. *)
Definition pystr := list N.
Definition bytes := list Byte.byte.

Module PyStr.

(** ASCII literals, for readable examples. *)
Definition of_string (s : string) : pystr :=
  map N_of_ascii (list_ascii_of_string s).

(** [a == b] on strings. *)
Fixpoint eqb (a b : pystr) : bool :=
  match a, b with
  | [], [] => true
  | x :: a', y :: b' => N.eqb x y && eqb a' b'
  | _, _ => false
  end.

(** [x in l] for a list of strings [l]. *)
Definition mem (x : pystr) (l : list pystr) : bool := existsb (eqb x) l.

(** [s.startswith(p)]; the inner test of the substring search. *)
Fixpoint startswith (s p : pystr) {struct p} : bool :=
  match p with
  | [] => true
  | c :: p' =>
      match s with
      | [] => false
      | d :: s' => N.eqb c d && startswith s' p'
      end
  end.

(** [k in text] for strings: [k] occurs as a contiguous run of [text]. *)
Fixpoint contains (k text : pystr) : bool :=
  startswith text k
  || match text with
     | [] => false
     | _ :: rest => contains k rest
     end.

(** The code points [str.split()] treats as separators
    (CPython's [Py_UNICODE_ISSPACE]). *)
Definition isspace (c : N) : bool :=
  (((9 <=? c) && (c <=? 13)) || ((28 <=? c) && (c <=? 32))
   || (c =? 133) || (c =? 160) || (c =? 5760)
   || ((8192 <=? c) && (c <=? 8202))
   || (c =? 8232) || (c =? 8233) || (c =? 8239) || (c =? 8287)
   || (c =? 12288))%N.

(** [text.split()] with no argument: maximal runs of non-space code
    points, in order.  [cur] is the run being read, reversed. *)
Fixpoint split_from (cur : option pystr) (s : pystr) : list pystr :=
  match s with
  | [] =>
      match cur with
      | None => []
      | Some t => [rev t]
      end
  | c :: s' =>
      if isspace c then
        match cur with
        | None => split_from None s'
        | Some t => rev t :: split_from None s'
        end
      else
        split_from (Some (c :: match cur with None => [] | Some t => t end)) s'
  end.

Definition split (s : pystr) : list pystr := split_from None s.

(** [str(n)] for an integer. *)
Definition of_Z (n : Z) : pystr :=
  of_string (NilZero.string_of_int (Z.to_int n)).

(** [sep.join(l)]. *)
Fixpoint join (sep : pystr) (l : list pystr) : pystr :=
  match l with
  | [] => []
  | [x] => x
  | x :: rest => x ++ sep ++ join sep rest
  end.

End PyStr.

(** ** Exceptions and results *)

(** The exceptions the module can meet.  [OtherException] stands for any
    other subclass of [Exception]; [BaseOnly] for the ones that derive from
    [BaseException] alone (KeyboardInterrupt, SystemExit, CancelledError),
    which [except Exception] lets through. *)
Inductive exn : Type :=
| AttributeError
| IndexError
| NameError
| OtherException (tag : nat)
| BaseOnly (tag : nat).

Definition is_AttributeError (e : exn) : bool :=
  match e with AttributeError => true | _ => false end.

Definition is_Exception (e : exn) : bool :=
  match e with BaseOnly _ => false | _ => true end.

Inductive result (A : Type) : Type :=
| Ok (a : A)
| Raise (e : exn).
Arguments Ok {A} a.
Arguments Raise {A} e.

Inductive level : Type := ERROR | WARNING | INFO.

(** What reading an attribute of a library object can end in, when it does
    not return: the attribute is missing (AttributeError), or the property
    behind it raised some other [Exception]. *)
Inductive read_failure : Type :=
| MissingAttribute
| PropertyError (tag : nat).

Definition exn_of_read_failure (f : read_failure) : exn :=
  match f with
  | MissingAttribute => AttributeError
  | PropertyError tag => OtherException tag
  end.

(** ** Data model *)

Section Plugin.

(** Opaque values of the host platform and of the library: the chat
    event, the option structure a template takes, and the identifier the
    collector attaches to each image, with Python's [str()] on it.
    [repr] is Python's [repr()] on a string, used when a list of strings
    is formatted into an f-string. *)
Variable AstrMessageEvent : Type.
Variable Options : Type.
Variable ImageKey : Type.
Variable str_of_key : ImageKey -> pystr.
Variable repr : pystr -> pystr.

(** [params_type] / [info.params] of a template. *)
Record MemeParamsType : Type := {
  min_images : Z;
  max_images : Z;
  min_texts : Z;
  max_texts : Z;
  default_texts : list pystr
}.

(** [meme.info] of the current binding. *)
Record MemeInfo : Type := {
  info_keywords : list pystr;
  info_params : MemeParamsType;
  info_tags : list pystr
}.

(** What [generate_preview()] hands back: an [io.BytesIO] or raw bytes. *)
Inductive Preview : Type :=
| BytesIO (content : bytes)
| RawBytes (content : bytes).

(** [meme_generator.Image(name=..., data=...)]. *)
Record MemeImage : Type := { name : pystr; data : bytes }.

(** A template.  The legacy binding reads [keywords], [params_type],
    [tags] and calls the template itself ([call], whose [BytesIO] result
    is given by its content); the current binding reads [info] and calls
    [generate].  Templates are ordinary objects, hence truthy. *)
Record Meme : Type := {
  key : pystr;
  keywords : list pystr;
  params_type : MemeParamsType;
  tags : list pystr;
  info : MemeInfo;
  generate_preview : result Preview;
  call : list bytes -> list pystr -> Options -> result bytes;
  generate : list MemeImage -> list pystr -> Options -> result bytes
}.

(** The module-level dataclass [MemeProperties]. *)
Record MemeProperties : Type := { disabled : bool; labels : list pystr }.

(** Everything outside the module: the import outcome and version of
    meme-generator, its functions (the n-th call of [get_memes] and of
    the resource check may each return or raise), the legacy catalog
    renderer, the parameter collector and the configuration option.
    The objects a fetch returns may belong to a library whose resources
    are not complete yet: [keywords_failure n m] tells whether reading the
    keyword attribute of template [m], as returned by the n-th fetch,
    fails while the manager loads that fetch. *)
Record External : Type := {
  MEME_GENERATOR_AVAILABLE : bool;
  version : list Z;
  get_memes : nat -> result (list Meme);
  keywords_failure : nat -> Meme -> option read_failure;
  check_resources_func : nat -> result unit;
  render_meme_list :
    list (Meme * MemeProperties) -> pystr -> bool -> result bytes;
  collect_params :
    AstrMessageEvent -> MemeParamsType ->
    result (list (ImageKey * bytes) * list pystr * Options);
  is_check_resources : bool
}.

Variable E : External.

(** [__version__], which the import fallback sets to 999.0.0. *)
Definition __version__ : list Z :=
  if MEME_GENERATOR_AVAILABLE E then version E else [999; 0; 0]%Z.

(** Python's [<] on tuples of integers. *)
Fixpoint tuple_ltb (a b : list Z) : bool :=
  match a, b with
  | _, [] => false
  | [], _ :: _ => true
  | x :: a', y :: b' =>
      if (x <? y)%Z then true
      else if (y <? x)%Z then false
      else tuple_ltb a' b'
  end.

Definition is_py_version : bool := tuple_ltb __version__ [0; 2; 0]%Z.

(** ** Manager state and the world around it *)

Record Manager : Type := {
  memes : list Meme;
  meme_keywords : list pystr;
  _memes_loaded : bool
}.

(** [log] records each logger call by level and source line, newest
    first; the two counters count the calls made to the library. *)
Record World : Type := {
  self : Manager;
  get_memes_calls : nat;
  check_calls : nat;
  log : list (level * nat)
}.

(** ** The monad: state that survives a raised exception *)

Definition M (A : Type) : Type := World -> result A * World.

Definition ret {A} (a : A) : M A := fun w => (Ok a, w).

Definition bind {A B} (c : M A) (k : A -> M B) : M B :=
  fun w =>
    match c w with
    | (Ok a, w') => k a w'
    | (Raise e, w') => (Raise e, w')
    end.

Definition raise {A} (e : exn) : M A := fun w => (Raise e, w).

Definition lift {A} (r : result A) : M A := fun w => (r, w).

(** [try: body except ...: handler]; the handler re-raises what it does
    not catch. *)
Definition try_except {A} (body : M A) (handler : exn -> M A) : M A :=
  fun w =>
    match body w with
    | (Ok a, w') => (Ok a, w')
    | (Raise e, w') => handler e w'
    end.

Local Notation "x <- c1 ;; c2" := (bind c1 (fun x => c2))
  (at level 61, c1 at next level, right associativity).
Local Notation "c1 ;; c2" := (bind c1 (fun _ => c2))
  (at level 61, right associativity).

Definition get_self : M Manager := fun w => (Ok (self w), w).

Definition put_self (s : Manager) : M unit :=
  fun w =>
    (Ok tt, {| self := s; get_memes_calls := get_memes_calls w;
               check_calls := check_calls w; log := log w |}).

Definition set_memes (ms : list Meme) : M unit :=
  s <- get_self ;;
  put_self {| memes := ms; meme_keywords := meme_keywords s;
              _memes_loaded := _memes_loaded s |}.

Definition set_meme_keywords (ks : list pystr) : M unit :=
  s <- get_self ;;
  put_self {| memes := memes s; meme_keywords := ks;
              _memes_loaded := _memes_loaded s |}.

Definition set_memes_loaded (b : bool) : M unit :=
  s <- get_self ;;
  put_self {| memes := memes s; meme_keywords := meme_keywords s;
              _memes_loaded := b |}.

Definition logger (l : level) (line : nat) : M unit :=
  fun w =>
    (Ok tt, {| self := self w; get_memes_calls := get_memes_calls w;
               check_calls := check_calls w; log := (l, line) :: log w |}).

(** A call of [get_memes()]: the import fallback is [lambda: []]. *)
Definition call_get_memes : M (list Meme) :=
  fun w =>
    (if MEME_GENERATOR_AVAILABLE E then get_memes E (get_memes_calls w)
     else Ok [],
     {| self := self w; get_memes_calls := S (get_memes_calls w);
        check_calls := check_calls w; log := log w |}).

(** A call of [self.check_resources_func], awaited. *)
Definition call_check_resources : M unit :=
  fun w =>
    (check_resources_func E (check_calls w),
     {| self := self w; get_memes_calls := get_memes_calls w;
        check_calls := S (check_calls w); log := log w |}).

(** Reading one of the attributes [__init__] binds only after a
    successful import ([render_meme_list], [run_sync], [MemeImage]). *)
Definition bound_attribute : M unit :=
  if MEME_GENERATOR_AVAILABLE E then ret tt else raise AttributeError.

(** [meme.keywords if self.is_py_version else meme.info.keywords]. *)
Definition keywords_of (m : Meme) : list pystr :=
  if is_py_version then keywords m else info_keywords (info m).

(** The same read on an object fresh from the fetch just made, inside
    [_load_memes]: it raises when the attribute cannot be read. *)
Definition read_keywords (m : Meme) : M (list pystr) :=
  fun w =>
    (match keywords_failure E (pred (get_memes_calls w)) m with
     | Some f => Raise (exn_of_read_failure f)
     | None => Ok (keywords_of m)
     end, w).

(** [[k for m in self.memes for k in (...)]]: templates in order, each
    one's keywords read and then appended; the first read that fails ends
    the comprehension. *)
Fixpoint flatten_keywords (ms : list Meme) : M (list pystr) :=
  match ms with
  | [] => ret []
  | m :: rest =>
      ks <- read_keywords m ;;
      more <- flatten_keywords rest ;;
      ret (ks ++ more)
  end.

(** ** Construction and catalog load *)

(** [MemeManager.__init__]: the three attributes start empty; a failed
    import is reported on the log (lines 47 to 55). *)
Definition init : World :=
  {| self := {| memes := []; meme_keywords := []; _memes_loaded := false |};
     get_memes_calls := 0;
     check_calls := 0;
     log := if MEME_GENERATOR_AVAILABLE E then []
            else map (fun line => (ERROR, line))
                     [55; 54; 53; 52; 51; 50; 49; 48; 47] |}.

(** [except AttributeError] / [except Exception] of [_load_memes]. *)
Definition load_handler (e : exn) : M unit :=
  if is_AttributeError e then
    logger ERROR 93 ;;
    logger ERROR 94 ;;
    logger INFO 95 ;;
    set_memes [] ;;
    set_meme_keywords []
  else if is_Exception e then
    logger ERROR 99 ;;
    set_memes [] ;;
    set_meme_keywords []
  else raise e.

Definition _load_memes : M unit :=
  s <- get_self ;;
  if _memes_loaded s then ret tt
  else if negb (MEME_GENERATOR_AVAILABLE E) then logger ERROR 77
  else
    try_except
      (fetched <- call_get_memes ;;
       set_memes fetched ;;
       s <- get_self ;;
       match memes s with
       | [] =>
           logger WARNING 82 ;;
           logger INFO 83
       | _ :: _ =>
           ks <- flatten_keywords (memes s) ;;
           set_meme_keywords ks ;;
           set_memes_loaded true ;;
           logger INFO 91
       end)
      load_handler.

Definition check_resources : M unit :=
  if negb (MEME_GENERATOR_AVAILABLE E) then logger ERROR 105
  else if negb (is_check_resources E) then
    logger INFO 108 ;;
    _load_memes
  else
    logger INFO 111 ;;
    try_except
      (call_check_resources ;;
       logger INFO 117)
      (fun e => if is_Exception e then logger WARNING 119 else raise e) ;;
    _load_memes.

(** ** Keyword resolution *)

(** The [for meme in self.memes] loop of [find_meme]. *)
Fixpoint find_in (keyword : pystr) (ms : list Meme) : option Meme :=
  match ms with
  | [] => None
  | meme :: rest =>
      let keywords := keywords_of meme in
      if PyStr.eqb keyword (key meme) || PyStr.mem keyword keywords
      then Some meme
      else find_in keyword rest
  end.

Definition find_meme (keyword : pystr) : M (option Meme) :=
  s <- get_self ;;
  if negb (_memes_loaded s) then
    logger WARNING 124 ;;
    ret None
  else ret (find_in keyword (memes s)).

Definition is_meme_keyword (meme_name : pystr) : M bool :=
  s <- get_self ;;
  if negb (_memes_loaded s) then ret false
  else ret (PyStr.mem meme_name (meme_keywords s)).

(** [next((k for k in self.meme_keywords if k in text), None)]. *)
Fixpoint next_fuzzy (text : pystr) (ks : list pystr) : option pystr :=
  match ks with
  | [] => None
  | k :: rest =>
      if PyStr.contains k text then Some k else next_fuzzy text rest
  end.

(** [next((k for k in self.meme_keywords if k == text.split()[0]), None)]:
    the condition, and with it the subscript, is evaluated once per
    keyword reached. *)
Fixpoint next_exact (text : pystr) (ks : list pystr)
  : result (option pystr) :=
  match ks with
  | [] => Ok None
  | k :: rest =>
      match nth_error (PyStr.split text) 0 with
      | None => Raise IndexError
      | Some token =>
          if PyStr.eqb k token then Ok (Some k) else next_exact text rest
      end
  end.

Definition match_meme_keyword (text : pystr) (fuzzy_match : bool)
  : M (option pystr) :=
  s <- get_self ;;
  if negb (_memes_loaded s) then ret None
  else if fuzzy_match then ret (next_fuzzy text (meme_keywords s))
  else lift (next_exact text (meme_keywords s)).

(** ** Catalog rendering *)

(** The legacy branch calls the library renderer and takes the content
    of the buffer it returns.  The current branch builds its mapping and
    then evaluates the arguments of the call: [self.render_meme_list],
    and [MemeSortBy.KeywordsPinyin], a name that is imported inside
    [__init__] only and is therefore unbound here. *)
Definition render_meme_list_image : M (option bytes) :=
  s <- get_self ;;
  if negb (_memes_loaded s) then
    logger WARNING 151 ;;
    ret None
  else if is_py_version then
    let meme_list :=
      map (fun m => (m, {| disabled := false; labels := [] |})) (memes s) in
    bound_attribute ;;
    image <- lift (render_meme_list E meme_list
                     (PyStr.of_string "{index}.{keywords}") true) ;;
    ret (Some image)
  else
    let meme_props :=
      map (fun m => (key m, {| disabled := false; labels := [] |}))
          (memes s) in
    bound_attribute ;;
    raise NameError.

(** ** Template info *)

(** Truth value of a list or string: it is not empty. *)
Definition truthy {A} (l : list A) : bool :=
  match l with [] => false | _ :: _ => true end.

(** [str(l)] for a list of strings, as an f-string formats it. *)
Definition str_of_list (l : list pystr) : pystr :=
  PyStr.of_string "[" ++ PyStr.join (PyStr.of_string ", ") (map repr l)
  ++ PyStr.of_string "]".

Definition nl : pystr := [10%N].
(** The labels of the description, as code points:
    name, aliases, images needed, texts needed, default texts, tags,
    and the two counters' units. *)
Definition label_name : pystr := [21517; 31216; 65306]%N.
Definition label_alias : pystr := [21035; 21517; 65306]%N.
Definition label_images : pystr := [25152; 38656; 22270; 29255; 65306]%N.
Definition label_texts : pystr := [25152; 38656; 25991; 26412; 65306]%N.
Definition label_default : pystr := [40664; 35748; 25991; 26412; 65306]%N.
Definition label_tags : pystr := [26631; 31614; 65306]%N.
Definition unit_images : pystr := [24352%N].
Definition unit_texts : pystr := [27573%N].
Definition tilde : pystr := [126%N].

(** The text part of [get_meme_info]: [meme_info] grows by [+=] under a
    sequence of tests. *)
Definition describe (meme : Meme) : pystr :=
  let p := if is_py_version then params_type meme
           else info_params (info meme) in
  let keywords := if is_py_version then keywords meme
                  else info_keywords (info meme) in
  let tags := if is_py_version then tags meme else info_tags (info meme) in
  let meme_info : pystr := [] in
  let meme_info :=
    if truthy (key meme)
    then meme_info ++ (label_name ++ key meme ++ nl)
    else meme_info in
  let meme_info :=
    if truthy keywords
    then meme_info ++ (label_alias ++ str_of_list keywords ++ nl)
    else meme_info in
  let meme_info :=
    if (max_images p >? 0)%Z
    then meme_info ++
         (if (min_images p =? max_images p)%Z
          then label_images ++ PyStr.of_Z (min_images p) ++ unit_images ++ nl
          else label_images ++ PyStr.of_Z (min_images p) ++ tilde
               ++ PyStr.of_Z (max_images p) ++ unit_images ++ nl)
    else meme_info in
  let meme_info :=
    if (max_texts p >? 0)%Z
    then meme_info ++
         (if (min_texts p =? max_texts p)%Z
          then label_texts ++ PyStr.of_Z (min_texts p) ++ unit_texts ++ nl
          else label_texts ++ PyStr.of_Z (min_texts p) ++ tilde
               ++ PyStr.of_Z (max_texts p) ++ unit_texts ++ nl)
    else meme_info in
  let meme_info :=
    if truthy (default_texts p)
    then meme_info ++ (label_default ++ str_of_list (default_texts p) ++ nl)
    else meme_info in
  let meme_info :=
    if truthy tags
    then meme_info ++ (label_tags ++ str_of_list tags ++ nl)
    else meme_info in
  meme_info.

(** [previewed.getvalue() if isinstance(previewed, io.BytesIO)
    else previewed]. *)
Definition preview_bytes (previewed : Preview) : bytes :=
  match previewed with
  | BytesIO content => content
  | RawBytes content => content
  end.

Definition get_meme_info (keyword : pystr) : M (option (pystr * bytes)) :=
  found <- find_meme keyword ;;
  match found with
  | None => ret None
  | Some meme =>
      let meme_info := describe meme in
      previewed <- lift (generate_preview meme) ;;
      ret (Some (meme_info, preview_bytes previewed))
  end.

(** ** Generation pipeline *)

Definition generate_meme (event : AstrMessageEvent) (keyword : pystr)
  : M (option bytes) :=
  found <- find_meme keyword ;;
  match found with
  | None => ret None
  | Some meme =>
      let params := if is_py_version then params_type meme
                    else info_params (info meme) in
      collected <- lift (collect_params E event params) ;;
      let '(images, texts, options) := collected in
      if is_py_version then
        let meme_images := map snd images in
        bound_attribute ;;
        buffer <- lift (call meme meme_images texts options) ;;
        ret (Some buffer)
      else
        match images with
        | [] => ret tt
        | _ :: _ => bound_attribute
        end ;;
        let meme_images :=
          map (fun i => {| name := str_of_key (fst i); data := snd i |})
              images in
        image <- lift (generate meme meme_images texts options) ;;
        ret (Some image)
  end.

(** ** Histories of calls *)

(** One invocation of a method of the manager by the host. *)
Inductive invocation : Type :=
| Load_memes
| Check_resources
| Find_meme (keyword : pystr)
| Is_meme_keyword (meme_name : pystr)
| Match_meme_keyword (text : pystr) (fuzzy_match : bool)
| Render_meme_list_image
| Get_meme_info (keyword : pystr)
| Generate_meme (event : AstrMessageEvent) (keyword : pystr).

(** The world after one invocation, whatever it returned or raised. *)
Definition after (i : invocation) (w : World) : World :=
  match i with
  | Load_memes => snd (_load_memes w)
  | Check_resources => snd (check_resources w)
  | Find_meme keyword => snd (find_meme keyword w)
  | Is_meme_keyword meme_name => snd (is_meme_keyword meme_name w)
  | Match_meme_keyword text fuzzy_match =>
      snd (match_meme_keyword text fuzzy_match w)
  | Render_meme_list_image => snd (render_meme_list_image w)
  | Get_meme_info keyword => snd (get_meme_info keyword w)
  | Generate_meme event keyword => snd (generate_meme event keyword w)
  end.

Fixpoint exec (history : list invocation) (w : World) : World :=
  match history with
  | [] => w
  | i :: rest => exec rest (after i w)
  end.

(** The worlds a manager can be in: those met after some history of
    calls on a freshly constructed one. *)
Definition reachable (w : World) : Prop :=
  exists history, w = exec history init.

(** ** Vocabulary of the statements *)

(** The attributes of a template as the selected binding reads them. *)
Definition params_of (m : Meme) : MemeParamsType :=
  if is_py_version then params_type m else info_params (info m).

Definition tags_of (m : Meme) : list pystr :=
  if is_py_version then tags m else info_tags (info m).

(** A template answers to a keyword: its key is the keyword, or its
    keyword list holds it. *)
Definition matches (keyword : pystr) (m : Meme) : Prop :=
  keyword = key m \/ In keyword (keywords_of m).

(** The keywords of a catalog in flattening order: template by template,
    each template's list in its own order. *)
Definition flattened (ms : list Meme) : list pystr :=
  List.concat (map keywords_of ms).

(** What holds of the three attributes together: a loaded manager has a
    non-empty catalog from an importable library and the keywords of that
    catalog; one that is not loaded has neither templates nor keywords. *)
Definition consistent (w : World) : Prop :=
  if _memes_loaded (self w)
  then meme_keywords (self w) = flat_map keywords_of (memes (self w))
       /\ memes (self w) <> []
       /\ MEME_GENERATOR_AVAILABLE E = true
  else memes (self w) = [] /\ meme_keywords (self w) = [].

(** The first failure, in catalog order, of reading the keywords of the
    templates [ms] returned by the [n]-th fetch; none when all can be
    read. *)
Fixpoint first_read_failure (n : nat) (ms : list Meme)
  : option read_failure :=
  match ms with
  | [] => None
  | m :: rest =>
      match keywords_failure E n m with
      | Some f => Some f
      | None => first_read_failure n rest
      end
  end.

(** The [n]-th call of [get_memes] brings templates whose keywords can
    all be read. *)
Definition fetch_succeeds (n : nat) : Prop :=
  exists m ms,
    get_memes E n = Ok (m :: ms) /\ first_read_failure n (m :: ms) = None.

(** Where the catalog comes from: that of a loaded manager is what the
    last fetch made returned, with all keywords read, and no fetch before
    that one succeeded; while the manager is not loaded, no fetch made so
    far succeeded. *)
Definition provenance (w : World) : Prop :=
  if _memes_loaded (self w)
  then exists n,
         get_memes_calls w = S n
         /\ get_memes E n = Ok (memes (self w))
         /\ first_read_failure n (memes (self w)) = None
         /\ forall k, k < n -> ~ fetch_succeeds k
  else forall k, k < get_memes_calls w -> ~ fetch_succeeds k.

End Plugin.

(** [x] is the first element of [l], in list order, that satisfies [P]. *)
Definition first_such {A} (P : A -> Prop) (l : list A) (x : A) : Prop :=
  exists before after,
    l = before ++ x :: after /\ Forall (fun y => ~ P y) before /\ P x.

(** [k] occurs somewhere in [text] as a contiguous run. *)
Definition occurs_in (k text : pystr) : Prop :=
  exists left right, text = left ++ k ++ right.

(** [token] is the first whitespace-delimited token of [text]: what is left
    of it is whitespace only, it is a non-empty run without whitespace, and
    it ends where [text] ends or where whitespace follows. *)
Definition first_token (text token : pystr) : Prop :=
  exists blank rest,
    text = blank ++ token ++ rest
    /\ Forall (fun c => PyStr.isspace c = true) blank
    /\ token <> []
    /\ Forall (fun c => PyStr.isspace c = false) token
    /\ (rest = [] \/ exists c rest', rest = c :: rest' /\ PyStr.isspace c = true).

(** * A concrete library

    A current-generation library (version 0.2.5) whose first fetch finds
    nothing, whose second fetch fails on an attribute, and which serves a
    catalog of three templates from the third fetch on; and variants of
    it for the other situations the properties speak of. *)

Module Example.

Definition s (text : string) : pystr := PyStr.of_string text.

(** [repr] on strings of printable characters without quotes or
    backslashes. *)
Definition plain_repr (x : pystr) : pystr := s "'" ++ x ++ s "'".

Definition str_of_nat (n : nat) : pystr := PyStr.of_Z (Z.of_nat n).

Definition png : bytes := [Byte.x89; Byte.x50; Byte.x4e; Byte.x47].

Definition template (k : pystr) (ks : list pystr) (p : MemeParamsType)
  (ts : list pystr) (preview : result Preview) : Meme unit :=
  {| key := k; keywords := ks; params_type := p; tags := ts;
     info := {| info_keywords := ks; info_params := p; info_tags := ts |};
     generate_preview := preview;
     call := fun _ _ _ => Ok png;
     generate := fun _ _ _ => Raise (OtherException 3) |}.

(** The template of the specification's scenario: key ksyx, two aliases,
    exactly one image, no text. *)
Definition ksyx : Meme unit :=
  template (s "ksyx")
    [[30475; 117; 112; 120]%N; [30475; 23546]%N]
    {| min_images := 1; max_images := 1; min_texts := 0; max_texts := 0;
       default_texts := [] |}
    [] (Ok (BytesIO png)).

Definition sketch : Meme unit :=
  template (s "sketch") [s "raw"; s "draw"]
    {| min_images := 1; max_images := 2; min_texts := 0; max_texts := 1;
       default_texts := [s "hi"] |}
    [s "art"] (Ok (RawBytes png)).

Definition doodle : Meme unit :=
  template (s "doodle") [s "draw"]
    {| min_images := 0; max_images := 0; min_texts := 1; max_texts := 1;
       default_texts := [] |}
    [] (Raise (OtherException 5)).

Definition catalog : list (Meme unit) := [ksyx; sketch; doodle].

Definition lib : External unit unit nat :=
  {| MEME_GENERATOR_AVAILABLE := true;
     version := [0; 2; 5]%Z;
     get_memes := fun n =>
       match n with
       | 0 => Ok []
       | 1 => Raise AttributeError
       | _ => Ok catalog
       end;
     keywords_failure := fun _ _ => None;
     check_resources_func := fun _ => Raise (OtherException 1);
     render_meme_list := fun _ _ _ => Ok png;
     collect_params := fun _ p =>
       if (max_texts p >? 0)%Z then Raise (OtherException 7)
       else Ok ([(0, png)], [], tt);
     is_check_resources := true |}.

(** The manager after three resource checks: the third one loads. *)
Definition loaded_world : World unit :=
  exec str_of_nat plain_repr lib
    [Check_resources unit; Check_resources unit; Check_resources unit]
    (init lib).

(** A history that calls every method at least once. *)
Definition busy_history : list (invocation unit) :=
  [Check_resources unit; Load_memes unit; Generate_meme tt (s "raw");
   Get_meme_info unit (s "doodle"); Render_meme_list_image unit;
   Match_meme_keyword unit [] false; Find_meme unit (s "nothing");
   Is_meme_keyword unit (s "raw"); Load_memes unit].

(** The manager after one resource check that found nothing. *)
Definition retry_world : World unit :=
  exec str_of_nat plain_repr lib [Check_resources unit] (init lib).

(** A host on which meme-generator cannot be imported. *)
Definition lib_missing : External unit unit nat :=
  {| MEME_GENERATOR_AVAILABLE := false;
     version := [0; 1; 0]%Z;
     get_memes := fun _ => Ok catalog;
     keywords_failure := fun _ _ => None;
     check_resources_func := fun _ => Ok tt;
     render_meme_list := fun _ _ _ => Ok png;
     collect_params := fun _ _ => Ok ([], [], tt);
     is_check_resources := true |}.

(** A library whose calls are cancelled: both the resource check and the
    fetch end in an exception that is not an [Exception]. *)
Definition lib_cancelled : External unit unit nat :=
  {| MEME_GENERATOR_AVAILABLE := true;
     version := [0; 2; 5]%Z;
     get_memes := fun _ => Raise (BaseOnly 0);
     keywords_failure := fun _ _ => None;
     check_resources_func := fun _ => Raise (BaseOnly 1);
     render_meme_list := fun _ _ _ => Ok png;
     collect_params := fun _ _ => Ok ([], [], tt);
     is_check_resources := true |}.

(** A legacy library with one template that lists the empty string among
    its keywords. *)
Definition blank_alias : Meme unit :=
  template (s "blank") [s "zzz"; []]
    {| min_images := 0; max_images := 0; min_texts := 0; max_texts := 0;
       default_texts := [] |}
    [] (Raise (OtherException 9)).

Definition lib_blank : External unit unit nat :=
  {| MEME_GENERATOR_AVAILABLE := true;
     version := [0; 1; 11]%Z;
     get_memes := fun _ => Ok [blank_alias];
     keywords_failure := fun _ _ => None;
     check_resources_func := fun _ => Ok tt;
     render_meme_list := fun _ _ _ => Ok png;
     collect_params := fun _ _ => Ok ([], [], tt);
     is_check_resources := false |}.

(** A library still downloading at the first fetch: it returns the
    catalog, but the keywords of sketch cannot be read yet; from the second
    fetch on everything is in place. *)
Definition lib_partial : External unit unit nat :=
  {| MEME_GENERATOR_AVAILABLE := true;
     version := [0; 2; 5]%Z;
     get_memes := fun _ => Ok catalog;
     keywords_failure := fun n m =>
       match n with
       | 0 => if PyStr.eqb (key m) (s "sketch") then Some MissingAttribute
              else None
       | _ => None
       end;
     check_resources_func := fun _ => Ok tt;
     render_meme_list := fun _ _ _ => Ok png;
     collect_params := fun _ _ => Ok ([], [], tt);
     is_check_resources := false |}.

(** The manager on that library after a first load, which failed. *)
Definition partial_world : World unit :=
  exec str_of_nat plain_repr lib_partial [Load_memes unit] (init lib_partial).

Definition blank_world : World unit :=
  exec str_of_nat plain_repr lib_blank [Check_resources unit] (init lib_blank).

End Example.

(** * Properties *)

(** ** Strings *)

Lemma eqb_eq (a b : pystr) : PyStr.eqb a b = true <-> a = b.
Proof.
  revert b; induction a as [|x a IH]; intros [|y b]; simpl;
    try (split; [discriminate | discriminate]); try tauto.
  rewrite andb_true_iff, N.eqb_eq, IH.
  split; [intros [-> ->]; reflexivity | intros H; injection H; auto].
Qed.

Lemma eqb_refl (a : pystr) : PyStr.eqb a a = true.
Proof. apply eqb_eq; reflexivity. Qed.

Lemma mem_In (x : pystr) (l : list pystr) : PyStr.mem x l = true <-> In x l.
Proof.
  unfold PyStr.mem; rewrite existsb_exists; split.
  - intros (y & Hy & Heq); apply eqb_eq in Heq; subst; assumption.
  - intros H; exists x; split; [assumption | apply eqb_refl].
Qed.

Lemma mem_false (x : pystr) (l : list pystr) :
  PyStr.mem x l = false <-> ~ In x l.
Proof.
  rewrite <- mem_In; destruct (PyStr.mem x l); split; intros H;
    try reflexivity; try discriminate; try (intros H'; discriminate).
  exfalso; apply H; reflexivity.
Qed.

Lemma startswith_prefix (s p : pystr) :
  PyStr.startswith s p = true <-> exists r, s = p ++ r.
Proof.
  revert s; induction p as [|c p IH]; intros s; simpl.
  - split; [intros _; exists s; reflexivity | reflexivity].
  - destruct s as [|d s].
    + split; [discriminate | intros (r & H); discriminate].
    + rewrite andb_true_iff, N.eqb_eq, IH; split.
      * intros (-> & r & ->); exists r; reflexivity.
      * intros (r & H); injection H as -> ->; split; [reflexivity | exists r; reflexivity].
Qed.

Lemma contains_occurs (k text : pystr) :
  PyStr.contains k text = true <-> occurs_in k text.
Proof.
  unfold occurs_in; induction text as [|c text IH]; simpl.
  - rewrite orb_false_r, startswith_prefix; split.
    + intros (r & H); exists [], r; exact H.
    + intros (l & r & H); destruct l; [exists r; exact H | discriminate].
  - rewrite orb_true_iff, startswith_prefix, IH; split.
    + intros [(r & H) | (l & r & H)].
      * exists [], r; exact H.
      * exists (c :: l), r; simpl; rewrite H; reflexivity.
    + intros ([|d l] & r & H).
      * left; exists r; exact H.
      * right; injection H as _ H; exists l, r; exact H.
Qed.

Lemma split_skips_blank (blank s : pystr) :
  Forall (fun c => PyStr.isspace c = true) blank ->
  PyStr.split_from None (blank ++ s) = PyStr.split_from None s.
Proof.
  induction 1 as [|c blank Hc _ IH]; simpl; [reflexivity |].
  rewrite Hc; exact IH.
Qed.

Lemma split_reads_token (token rest acc : pystr) :
  Forall (fun c => PyStr.isspace c = false) token ->
  PyStr.split_from (Some acc) (token ++ rest)
  = PyStr.split_from (Some (rev token ++ acc)) rest.
Proof.
  intros H; revert acc; induction H as [|c token Hc _ IH]; intros acc; simpl.
  - reflexivity.
  - rewrite Hc, IH, <- app_assoc; reflexivity.
Qed.

Lemma split_first_token (text token : pystr) :
  first_token text token -> nth_error (PyStr.split text) 0 = Some token.
Proof.
  intros (blank & rest & -> & Hblank & Hne & Htok & Hrest).
  unfold PyStr.split; rewrite split_skips_blank by assumption.
  destruct token as [|c token]; [congruence |].
  inversion Htok as [|? ? Hc Htok']; subst.
  simpl; rewrite Hc, split_reads_token by assumption.
  assert (Hrev : rev (rev token ++ [c]) = c :: token)
    by (rewrite rev_app_distr, rev_involutive; reflexivity).
  destruct Hrest as [-> | (d & rest' & -> & Hd)]; simpl.
  - rewrite Hrev; reflexivity.
  - rewrite Hd; simpl; rewrite Hrev; reflexivity.
Qed.

Lemma split_blank (text : pystr) :
  Forall (fun c => PyStr.isspace c = true) text -> PyStr.split text = [].
Proof.
  intros H; unfold PyStr.split.
  rewrite <- (app_nil_r text), split_skips_blank by assumption; reflexivity.
Qed.

Lemma token_run (text : pystr) :
  exists token rest,
    text = token ++ rest
    /\ Forall (fun c => PyStr.isspace c = false) token
    /\ (rest = [] \/ exists c rest', rest = c :: rest' /\ PyStr.isspace c = true).
Proof.
  induction text as [|c text (token & rest & -> & Htok & Hrest)].
  - exists [], []; repeat split; [constructor | left; reflexivity].
  - destruct (PyStr.isspace c) eqn:Hc.
    + exists [], (c :: token ++ rest); repeat split; [constructor |].
      right; exists c, (token ++ rest); split; [reflexivity | exact Hc].
    + exists (c :: token), rest; repeat split; [|exact Hrest].
      constructor; assumption.
Qed.

(** Every text is blank or has a first token. *)
Lemma blank_or_first_token (text : pystr) :
  Forall (fun c => PyStr.isspace c = true) text
  \/ exists token, first_token text token.
Proof.
  induction text as [|c text IH].
  - left; constructor.
  - destruct (PyStr.isspace c) eqn:Hc.
    + destruct IH as [Hb | (token & blank & rest & -> & Hblank & Hrest)].
      * left; constructor; assumption.
      * right; exists token, (c :: blank), rest; split; [reflexivity |].
        split; [constructor; assumption | exact Hrest].
    + right; destruct (token_run text) as (token & rest & -> & Htok & Hrest).
      exists (c :: token), [], rest; repeat split; try assumption.
      * constructor.
      * discriminate.
      * constructor; assumption.
Qed.

(** ** First match in a list *)

Lemma find_first_such {A} (f : A -> bool) (P : A -> Prop) (l : list A) :
  (forall y, f y = true <-> P y) ->
  forall x, find f l = Some x <-> first_such P l x.
Proof.
  intros Hf x; unfold first_such; induction l as [|a l IH]; simpl.
  - split; [discriminate | intros ([|] & ? & H & _); discriminate].
  - destruct (f a) eqn:Ha.
    + split.
      * intros [= ->]; exists [], l; repeat split; [constructor | apply Hf; exact Ha].
      * intros ([|b before] & after & H & Hbefore & Hx).
        -- injection H as -> _; reflexivity.
        -- injection H as -> _; inversion Hbefore as [|? ? Hb _]; subst.
           exfalso; apply Hb, Hf; exact Ha.
    + rewrite IH; split.
      * intros (before & after & -> & Hbefore & Hx).
        exists (a :: before), after; repeat split; try assumption.
        constructor; [intros Hp; apply Hf in Hp; congruence | assumption].
      * intros ([|b before] & after & H & Hbefore & Hx).
        -- injection H as -> _; apply Hf in Hx; congruence.
        -- injection H as -> ->; inversion Hbefore; subst.
           exists before, after; repeat split; assumption.
Qed.

Lemma find_none_Forall {A} (f : A -> bool) (P : A -> Prop) (l : list A) :
  (forall y, f y = true <-> P y) ->
  find f l = None <-> Forall (fun y => ~ P y) l.
Proof.
  intros Hf; induction l as [|a l IH]; simpl.
  - split; [constructor | reflexivity].
  - destruct (f a) eqn:Ha.
    + split; [discriminate |].
      intros H; inversion H as [|? ? Hn _]; subst.
      exfalso; apply Hn, Hf; exact Ha.
    + rewrite IH; split.
      * intros H; constructor; [intros Hp; apply Hf in Hp; congruence | exact H].
      * intros H; inversion H; assumption.
Qed.

(** ** The manager *)

Section Properties.

Context {AstrMessageEvent Options ImageKey : Type}.
Variable str_of_key : ImageKey -> pystr.
Variable repr : pystr -> pystr.
Variable E : External AstrMessageEvent Options ImageKey.

Local Notation "'Reachable'" := (reachable str_of_key repr E).

Ltac run :=
  unfold find_meme, is_meme_keyword, match_meme_keyword,
    render_meme_list_image, get_meme_info, generate_meme, _load_memes,
    check_resources, load_handler, set_memes, set_meme_keywords,
    set_memes_loaded, put_self, get_self, logger, call_get_memes,
    call_check_resources, bound_attribute, try_except, bind, ret, raise,
    lift in *;
  simpl in *.

(** *** Lookup loops as first matches *)

Lemma matches_iff (keyword : pystr) (m : Meme Options) :
  PyStr.eqb keyword (key m) || PyStr.mem keyword (keywords_of E m) = true
  <-> matches E keyword m.
Proof.
  unfold matches; rewrite orb_true_iff, eqb_eq, mem_In; reflexivity.
Qed.

Lemma find_in_find (keyword : pystr) (ms : list (Meme Options)) :
  find_in E keyword ms
  = find (fun m => PyStr.eqb keyword (key m)
                   || PyStr.mem keyword (keywords_of E m)) ms.
Proof.
  induction ms as [|m ms IH]; simpl; [reflexivity |].
  rewrite IH; reflexivity.
Qed.

Lemma next_fuzzy_find (text : pystr) (ks : list pystr) :
  next_fuzzy text ks = find (fun k => PyStr.contains k text) ks.
Proof.
  induction ks as [|k ks IH]; simpl; [reflexivity |].
  rewrite IH; reflexivity.
Qed.

Lemma next_exact_find (text token : pystr) (ks : list pystr) :
  nth_error (PyStr.split text) 0 = Some token ->
  next_exact text ks = Ok (find (fun k => PyStr.eqb k token) ks).
Proof.
  intros H; induction ks as [|k ks IH]; cbn [next_exact find];
    [reflexivity |].
  rewrite H, IH; destruct (PyStr.eqb k token); reflexivity.
Qed.

Lemma next_exact_no_token (text : pystr) (k : pystr) (ks : list pystr) :
  PyStr.split text = [] -> next_exact text (k :: ks) = Raise IndexError.
Proof. intros H; cbn [next_exact]; rewrite H; reflexivity. Qed.

Lemma find_meme_loaded (keyword : pystr) (w : World Options) :
  _memes_loaded (self w) = true ->
  find_meme E keyword w = (Ok (find_in E keyword (memes (self w))), w).
Proof. intros H; run; rewrite H; reflexivity. Qed.

Lemma find_meme_unloaded (keyword : pystr) (w : World Options) :
  _memes_loaded (self w) = false ->
  fst (find_meme E keyword w) = Ok None
  /\ self (snd (find_meme E keyword w)) = self w.
Proof. intros H; run; rewrite H; simpl; destruct w as [[? ? ?] ? ? ?]; auto. Qed.

Lemma find_meme_Some_loaded (keyword : pystr) (w : World Options) m :
  fst (find_meme E keyword w) = Ok (Some m) ->
  _memes_loaded (self w) = true.
Proof.
  destruct (_memes_loaded (self w)) eqn:H; [reflexivity |].
  destruct (find_meme_unloaded keyword w H) as [-> _]; discriminate.
Qed.

(** *** What each method leaves of the manager *)

Lemma find_meme_keeps_self (keyword : pystr) (w : World Options) :
  self (snd (find_meme E keyword w)) = self w.
Proof.
  destruct (_memes_loaded (self w)) eqn:H.
  - rewrite find_meme_loaded by assumption; reflexivity.
  - apply find_meme_unloaded; assumption.
Qed.

Lemma is_meme_keyword_keeps_self (meme_name : pystr) (w : World Options) :
  self (snd (is_meme_keyword meme_name w)) = self w.
Proof. run; destruct (_memes_loaded (self w)); reflexivity. Qed.

Lemma match_meme_keyword_keeps_self text fuzzy_match (w : World Options) :
  self (snd (match_meme_keyword text fuzzy_match w)) = self w.
Proof.
  run; destruct (_memes_loaded (self w)); simpl; [|reflexivity].
  destruct fuzzy_match; reflexivity.
Qed.

Lemma render_meme_list_image_keeps_self (w : World Options) :
  self (snd (render_meme_list_image E w)) = self w.
Proof.
  run; destruct (_memes_loaded (self w)); simpl;
    [|destruct w as [[? ? ?] ? ? ?]; reflexivity].
  destruct (is_py_version E), (MEME_GENERATOR_AVAILABLE E); simpl;
    try reflexivity.
  destruct (render_meme_list E _ _ _); reflexivity.
Qed.

Lemma get_meme_info_keeps_self (keyword : pystr) (w : World Options) :
  self (snd (get_meme_info repr E keyword w)) = self w.
Proof.
  unfold get_meme_info, bind.
  pose proof (find_meme_keeps_self keyword w) as H.
  destruct (find_meme E keyword w) as [[[m|]|e] w']; simpl in *;
    try assumption.
  unfold lift, ret; destruct (generate_preview m); assumption.
Qed.

Lemma generate_meme_keeps_self event (keyword : pystr) (w : World Options) :
  self (snd (generate_meme str_of_key E event keyword w)) = self w.
Proof.
  unfold generate_meme, bind.
  pose proof (find_meme_keeps_self keyword w) as H.
  destruct (find_meme E keyword w) as [[[m|]|e] w']; simpl in *;
    try assumption.
  unfold lift, ret, bound_attribute, raise.
  destruct (collect_params E event _) as [[[images texts] options]|e];
    simpl; [|assumption].
  destruct (is_py_version E).
  - destruct (MEME_GENERATOR_AVAILABLE E); simpl; [|assumption].
    destruct (call m _ _ _); assumption.
  - destruct images as [|i images]; simpl.
    + destruct (generate m _ _ _); assumption.
    + destruct (MEME_GENERATOR_AVAILABLE E); simpl; [|assumption].
      destruct (generate m _ _ _); assumption.
Qed.

Lemma load_when_loaded (w : World Options) :
  _memes_loaded (self w) = true -> _load_memes E w = (Ok tt, w).
Proof. intros H; run; rewrite H; reflexivity. Qed.

Lemma check_resources_when_loaded (w : World Options) :
  _memes_loaded (self w) = true -> self (snd (check_resources E w)) = self w.
Proof.
  intros H.
  assert (HL : forall w', self w' = self w ->
                          self (snd (_load_memes E w')) = self w).
  { intros w' Hw'; rewrite load_when_loaded; [exact Hw' |].
    rewrite Hw'; exact H. }
  unfold check_resources; revert HL; generalize (_load_memes E); intros load HL.
  destruct (MEME_GENERATOR_AVAILABLE E); simpl; [|reflexivity].
  destruct (is_check_resources E); simpl.
  - unfold bind, try_except, call_check_resources, logger, raise; simpl.
    destruct (check_resources_func E (check_calls w)) as [[]|e]; simpl.
    + apply HL; reflexivity.
    + destruct (is_Exception e); simpl; [apply HL |]; reflexivity.
  - unfold bind, logger; simpl; apply HL; reflexivity.
Qed.

(** *** The load path, case by case *)

Lemma load_when_unavailable (w : World Options) :
  MEME_GENERATOR_AVAILABLE E = false ->
  self (snd (_load_memes E w)) = self w
  /\ get_memes_calls (snd (_load_memes E w)) = get_memes_calls w.
Proof.
  intros H; run; rewrite H.
  destruct (_memes_loaded (self w)); simpl; auto.
Qed.

Lemma flatten_keywords_run (ms : list (Meme Options)) (w : World Options) :
  flatten_keywords E ms w
  = (match first_read_failure E (pred (get_memes_calls w)) ms with
     | Some f => Raise (exn_of_read_failure f)
     | None => Ok (flat_map (keywords_of E) ms)
     end, w).
Proof.
  induction ms as [|m ms IH]; simpl; [reflexivity |].
  unfold bind, read_keywords, ret.
  destruct (keywords_failure E (pred (get_memes_calls w)) m); [reflexivity |].
  rewrite IH.
  destruct (first_read_failure E (pred (get_memes_calls w)) ms); reflexivity.
Qed.

Lemma read_failure_is_Exception (f : read_failure) :
  is_Exception (exn_of_read_failure f) = true.
Proof. destruct f; reflexivity. Qed.

Lemma load_fetches (w : World Options) :
  _memes_loaded (self w) = false ->
  MEME_GENERATOR_AVAILABLE E = true ->
  get_memes_calls (snd (_load_memes E w)) = S (get_memes_calls w)
  /\ self (snd (_load_memes E w))
     = match get_memes E (get_memes_calls w) with
       | Ok [] =>
           {| memes := []; meme_keywords := meme_keywords (self w);
              _memes_loaded := false |}
       | Ok (m :: ms) =>
           match first_read_failure E (get_memes_calls w) (m :: ms) with
           | None =>
               {| memes := m :: ms;
                  meme_keywords := flat_map (keywords_of E) (m :: ms);
                  _memes_loaded := true |}
           | Some _ =>
               {| memes := []; meme_keywords := []; _memes_loaded := false |}
           end
       | Raise e =>
           if is_Exception e
           then {| memes := []; meme_keywords := []; _memes_loaded := false |}
           else self w
       end
  /\ fst (_load_memes E w)
     = match get_memes E (get_memes_calls w) with
       | Ok _ => Ok tt
       | Raise e => if is_Exception e then Ok tt else Raise e
       end.
Proof.
  intros Hl Ha.
  pose proof flatten_keywords_run as Hflat.
  unfold _load_memes; revert Hflat; generalize (flatten_keywords E).
  intros flatten Hflat; run; rewrite Hl, Ha; simpl.
  destruct (get_memes E (get_memes_calls w)) as [[|m ms]|e]; simpl.
  - rewrite Hl; auto.
  - rewrite Hflat; simpl.
    destruct (keywords_failure E (get_memes_calls w) m) as [f|]; simpl.
    + destruct f; simpl; rewrite ?Hl; auto.
    + destruct (first_read_failure E (get_memes_calls w) ms) as [f|]; simpl;
        [destruct f; simpl |]; rewrite ?Hl; auto.
  - destruct e; simpl; rewrite ?Hl; auto.
Qed.

Lemma load_consistent (w : World Options) :
  consistent E w -> consistent E (snd (_load_memes E w)).
Proof.
  intros Hc.
  destruct (_memes_loaded (self w)) eqn:Hl.
  - rewrite load_when_loaded by exact Hl; exact Hc.
  - destruct (MEME_GENERATOR_AVAILABLE E) eqn:Ha.
    + destruct (load_fetches w Hl Ha) as (_ & Hs & _).
      unfold consistent in *; rewrite Hs; rewrite Hl in Hc.
      destruct Hc as [Hm Hk].
      destruct (get_memes E (get_memes_calls w)) as [[|m ms]|e].
      * simpl; auto.
      * destruct (first_read_failure E (get_memes_calls w) (m :: ms));
          cbn [memes meme_keywords _memes_loaded]; [auto |].
        repeat split; [discriminate | exact Ha].
      * destruct (is_Exception e); simpl; [auto |].
        rewrite Hl; auto.
    + destruct (load_when_unavailable w Ha) as [Hs _].
      unfold consistent in *; rewrite Hs; exact Hc.
Qed.

Lemma consistent_self (w w' : World Options) :
  self w' = self w -> consistent E w -> consistent E w'.
Proof. unfold consistent; intros ->; auto. Qed.

Lemma check_resources_consistent (w : World Options) :
  consistent E w -> consistent E (snd (check_resources E w)).
Proof.
  intros Hc.
  assert (HL : forall w', self w' = self w ->
                          consistent E (snd (_load_memes E w'))).
  { intros w' Hw'; apply load_consistent, (consistent_self w w' Hw' Hc). }
  unfold check_resources; revert HL; generalize (_load_memes E); intros load HL.
  destruct (MEME_GENERATOR_AVAILABLE E); simpl;
    [|apply (consistent_self w); [reflexivity | exact Hc]].
  destruct (is_check_resources E); simpl.
  - unfold bind, try_except, call_check_resources, logger, raise; simpl.
    destruct (check_resources_func E (check_calls w)) as [[]|e]; simpl.
    + apply HL; reflexivity.
    + destruct (is_Exception e); simpl; [apply HL; reflexivity |].
      apply (consistent_self w); [reflexivity | exact Hc].
  - unfold bind, logger; simpl; apply HL; reflexivity.
Qed.

Lemma after_consistent i (w : World Options) :
  consistent E w -> consistent E (after str_of_key repr E i w).
Proof.
  intros Hc; destruct i; simpl.
  - apply load_consistent; exact Hc.
  - apply check_resources_consistent; exact Hc.
  - exact (consistent_self w _ (find_meme_keeps_self _ w) Hc).
  - exact (consistent_self w _ (is_meme_keyword_keeps_self _ w) Hc).
  - exact (consistent_self w _ (match_meme_keyword_keeps_self _ _ w) Hc).
  - exact (consistent_self w _ (render_meme_list_image_keeps_self w) Hc).
  - exact (consistent_self w _ (get_meme_info_keeps_self _ w) Hc).
  - exact (consistent_self w _ (generate_meme_keeps_self _ _ w) Hc).
Qed.

Lemma exec_consistent history (w : World Options) :
  consistent E w -> consistent E (exec str_of_key repr E history w).
Proof.
  revert w; induction history as [|i history IH]; intros w Hc; simpl.
  - exact Hc.
  - apply IH, after_consistent; exact Hc.
Qed.

Lemma reachable_consistent (w : World Options) :
  Reachable w -> consistent E w.
Proof.
  intros (history & ->); apply exec_consistent.
  unfold consistent, init; simpl; auto.
Qed.

Lemma after_when_loaded i (w : World Options) :
  _memes_loaded (self w) = true -> self (after str_of_key repr E i w) = self w.
Proof.
  intros Hl; destruct i; simpl.
  - rewrite load_when_loaded by exact Hl; reflexivity.
  - apply check_resources_when_loaded; exact Hl.
  - apply find_meme_keeps_self.
  - apply is_meme_keyword_keeps_self.
  - apply match_meme_keyword_keeps_self.
  - apply render_meme_list_image_keeps_self.
  - apply get_meme_info_keeps_self.
  - apply generate_meme_keeps_self.
Qed.

(** *** Keyword resolution *)

Lemma find_meme_first_such_exists (w : World Options) (keyword : pystr) :
  _memes_loaded (self w) = true ->
  (forall m, fst (find_meme E keyword w) = Ok (Some m)
             <-> first_such (matches E keyword) (memes (self w)) m)
  /\ (fst (find_meme E keyword w) = Ok None
      <-> Forall (fun m => ~ matches E keyword m) (memes (self w))).
Proof.
  intros Hl; rewrite find_meme_loaded by exact Hl; simpl.
  rewrite find_in_find; split.
  - intros m; rewrite <- (find_first_such _ _ _ (matches_iff keyword)).
    split; [intros [= ->]; reflexivity | intros ->; reflexivity].
  - rewrite <- (find_none_Forall _ _ _ (matches_iff keyword)).
    split; [intros [= ->]; reflexivity | intros ->; reflexivity].
Qed.

(** C1. On a loaded manager [find_meme keyword] returns a template exactly
    when that template is the first one of the catalog, in catalog order,
    whose key is the keyword or whose keyword list holds it, and returns
    none exactly when no template answers to the keyword; of two templates
    that share an alias, with no earlier template answering to it, the
    earlier one is returned; on a manager that is not loaded it returns
    none; it never raises. *)
Theorem find_meme_first_match (w : World Options) (keyword : pystr) :
  (_memes_loaded (self w) = true ->
   (forall m, fst (find_meme E keyword w) = Ok (Some m)
              <-> first_such (matches E keyword) (memes (self w)) m)
   /\ (fst (find_meme E keyword w) = Ok None
       <-> Forall (fun m => ~ matches E keyword m) (memes (self w))))
  /\ (forall before m1 between m2 after,
        _memes_loaded (self w) = true ->
        memes (self w) = before ++ m1 :: between ++ m2 :: after ->
        Forall (fun m => ~ matches E keyword m) before ->
        In keyword (keywords_of E m1) ->
        In keyword (keywords_of E m2) ->
        fst (find_meme E keyword w) = Ok (Some m1))
  /\ (_memes_loaded (self w) = false -> fst (find_meme E keyword w) = Ok None)
  /\ (exists found, fst (find_meme E keyword w) = Ok found).
Proof.
  split; [apply find_meme_first_such_exists |].
  split; [|split].
  - intros before m1 between m2 after Hl Hm Hbefore H1 _.
    apply (find_meme_first_such_exists w keyword Hl).
    exists before, (between ++ m2 :: after); repeat split; try assumption.
    right; exact H1.
  - intros Hl; apply find_meme_unloaded; exact Hl.
  - destruct (_memes_loaded (self w)) eqn:Hl.
    + rewrite find_meme_loaded by exact Hl; eexists; reflexivity.
    + exists None; apply find_meme_unloaded; exact Hl.
Qed.

(** The keywords of a reachable, loaded manager are those of its catalog
    in flattening order. *)
Lemma loaded_keywords_flattened (w : World Options) :
  Reachable w ->
  _memes_loaded (self w) = true ->
  meme_keywords (self w) = flattened E (memes (self w)).
Proof.
  intros Hr Hl; apply reachable_consistent in Hr.
  unfold consistent in Hr; rewrite Hl in Hr; destruct Hr as (-> & _).
  unfold flattened; apply flat_map_concat_map.
Qed.

Lemma match_meme_keyword_loaded text fuzzy_match (w : World Options) :
  _memes_loaded (self w) = true ->
  fst (match_meme_keyword text fuzzy_match w)
  = if fuzzy_match then Ok (next_fuzzy text (meme_keywords (self w)))
    else next_exact text (meme_keywords (self w)).
Proof. intros Hl; run; rewrite Hl; destruct fuzzy_match; reflexivity. Qed.

Lemma match_meme_keyword_unloaded text fuzzy_match (w : World Options) :
  _memes_loaded (self w) = false ->
  fst (match_meme_keyword text fuzzy_match w) = Ok None.
Proof. intros Hl; run; rewrite Hl; reflexivity. Qed.

(** C2. On a manager loaded by the load path, fuzzy matching returns the
    first keyword, in flattening order of the catalog, that occurs in the
    text, and exact matching returns the first keyword in that order equal
    to the first whitespace-delimited token of the text; each returns none
    exactly when no keyword qualifies. *)
Theorem match_meme_keyword_first_in_order (w : World Options) (text : pystr) :
  Reachable w ->
  _memes_loaded (self w) = true ->
  ((forall k, fst (match_meme_keyword text true w) = Ok (Some k)
              <-> first_such (fun k' => occurs_in k' text)
                             (flattened E (memes (self w))) k)
   /\ (fst (match_meme_keyword text true w) = Ok None
       <-> Forall (fun k' => ~ occurs_in k' text)
                  (flattened E (memes (self w)))))
  /\ (forall token,
        first_token text token ->
        (forall k, fst (match_meme_keyword text false w) = Ok (Some k)
                   <-> first_such (fun k' => k' = token)
                                  (flattened E (memes (self w))) k)
        /\ (fst (match_meme_keyword text false w) = Ok None
            <-> Forall (fun k' => k' <> token)
                       (flattened E (memes (self w))))).
Proof.
  intros Hr Hl.
  rewrite <- (loaded_keywords_flattened Hr Hl).
  rewrite !match_meme_keyword_loaded by exact Hl.
  split; [split |].
  - intros k; rewrite next_fuzzy_find.
    rewrite <- (find_first_such _ _ _ (fun y => contains_occurs y text)).
    split; [intros [= ->]; reflexivity | intros ->; reflexivity].
  - rewrite next_fuzzy_find.
    rewrite <- (find_none_Forall _ _ _ (fun y => contains_occurs y text)).
    split; [intros [= ->]; reflexivity | intros ->; reflexivity].
  - intros token Htok; apply split_first_token in Htok.
    rewrite (next_exact_find _ _ Htok).
    split.
    + intros k.
      rewrite <- (find_first_such _ _ _ (fun y => eqb_eq y token)).
      split; [intros [= ->]; reflexivity | intros ->; reflexivity].
    + rewrite <- (find_none_Forall _ _ _ (fun y => eqb_eq y token)).
      split; [intros [= ->]; reflexivity | intros ->; reflexivity].
Qed.

(** On a loaded manager with at least one keyword, exact matching of a
    text that holds no token raises IndexError. *)
Lemma match_meme_keyword_blank_text (w : World Options) (text : pystr) :
  _memes_loaded (self w) = true ->
  meme_keywords (self w) <> [] ->
  Forall (fun c => PyStr.isspace c = true) text ->
  fst (match_meme_keyword text false w) = Raise IndexError.
Proof.
  intros Hl Hk Hb; rewrite match_meme_keyword_loaded by exact Hl.
  destruct (meme_keywords (self w)) as [|k ks]; [congruence |].
  apply next_exact_no_token, split_blank; exact Hb.
Qed.

(** Exact matching on every text of a loaded manager: the first keyword
    equal to the first token when there is one; on a blank text, none when
    the keyword list is empty and IndexError otherwise. *)
Lemma match_meme_keyword_exact_cases (w : World Options) (text : pystr) :
  _memes_loaded (self w) = true ->
  (exists token,
      first_token text token
      /\ fst (match_meme_keyword text false w)
         = Ok (find (fun k => PyStr.eqb k token) (meme_keywords (self w))))
  \/ (Forall (fun c => PyStr.isspace c = true) text
      /\ fst (match_meme_keyword text false w)
         = match meme_keywords (self w) with
           | [] => Ok None
           | _ :: _ => Raise IndexError
           end).
Proof.
  intros Hl; rewrite match_meme_keyword_loaded by exact Hl.
  destruct (blank_or_first_token text) as [Hb | (token & Htok)].
  - right; split; [exact Hb |].
    destruct (meme_keywords (self w)) as [|k ks]; [reflexivity |].
    apply next_exact_no_token, split_blank; exact Hb.
  - left; exists token; split; [exact Htok |].
    apply next_exact_find, split_first_token; exact Htok.
Qed.

(** *** The loaded flag as a gate *)

(** C4. While the loaded flag is false, [find_meme], [match_meme_keyword],
    [render_meme_list_image] and [get_meme_info] return none and
    [is_meme_keyword] returns false, for every argument; none of them
    raises. *)
Theorem unloaded_queries_answer_nothing
  (w : World Options) (keyword meme_name text : pystr) (fuzzy_match : bool) :
  _memes_loaded (self w) = false ->
  fst (find_meme E keyword w) = Ok None
  /\ fst (is_meme_keyword meme_name w) = Ok false
  /\ fst (match_meme_keyword text fuzzy_match w) = Ok None
  /\ fst (render_meme_list_image E w) = Ok None
  /\ fst (get_meme_info repr E keyword w) = Ok None.
Proof.
  intros Hl; repeat split.
  - apply find_meme_unloaded; exact Hl.
  - run; rewrite Hl; reflexivity.
  - apply match_meme_keyword_unloaded; exact Hl.
  - run; rewrite Hl; reflexivity.
  - unfold get_meme_info, bind.
    pose proof (find_meme_unloaded keyword w Hl) as [Hf _].
    destruct (find_meme E keyword w) as [r w']; simpl in Hf; subst r.
    reflexivity.
Qed.

(** C5. From a world whose loaded flag is true, no history of calls, of
    any methods with any arguments and whatever the library answers,
    changes the flag, the catalog or the keyword list. *)
Theorem loaded_manager_is_frozen
  (w : World Options) (history : list (invocation AstrMessageEvent)) :
  _memes_loaded (self w) = true ->
  _memes_loaded (self (exec str_of_key repr E history w)) = true
  /\ memes (self (exec str_of_key repr E history w)) = memes (self w)
  /\ meme_keywords (self (exec str_of_key repr E history w))
     = meme_keywords (self w).
Proof.
  intros Hl.
  assert (Hs : self (exec str_of_key repr E history w) = self w).
  { revert w Hl; induction history as [|i history IH]; intros w Hl; simpl.
    - reflexivity.
    - pose proof (after_when_loaded i w Hl) as Hi.
      rewrite IH by (rewrite Hi; exact Hl); exact Hi. }
  rewrite Hs; auto.
Qed.

(** C6. [_load_memes] on a world whose loaded flag is true returns at once:
    catalog, keyword list and flag are the same afterwards, and so is the
    number of calls made to [get_memes]; indeed the whole world is. *)
Theorem load_memes_when_loaded_is_noop (w : World Options) :
  _memes_loaded (self w) = true ->
  fst (_load_memes E w) = Ok tt
  /\ memes (self (snd (_load_memes E w))) = memes (self w)
  /\ meme_keywords (self (snd (_load_memes E w))) = meme_keywords (self w)
  /\ _memes_loaded (self (snd (_load_memes E w))) = true
  /\ get_memes_calls (snd (_load_memes E w)) = get_memes_calls w
  /\ snd (_load_memes E w) = w.
Proof.
  intros Hl; rewrite load_when_loaded by exact Hl; simpl; auto 6.
Qed.

(** C7. Let a reachable manager that is not loaded, with the library
    importable, run [_load_memes], and let the load fail: the fetch
    returns an empty catalog, or the fetch raises, or the fetch returns
    templates and reading their keywords raises (an attribute-shaped
    failure or another exception).  Afterwards the flag is false and
    catalog and keyword list are empty.  The call returns normally when
    the catalog was empty, when the fetch raised an [Exception], and when
    the keyword read failed.  The fetch is counted, and a further call
    fetches again: if that fetch yields templates whose keywords can be
    read, the manager becomes loaded with them. *)
Theorem failed_load_leaves_manager_empty (w : World Options) :
  Reachable w ->
  _memes_loaded (self w) = false ->
  MEME_GENERATOR_AVAILABLE E = true ->
  (get_memes E (get_memes_calls w) = Ok []
   \/ (exists e, get_memes E (get_memes_calls w) = Raise e)
   \/ (exists ms f,
         get_memes E (get_memes_calls w) = Ok ms
         /\ first_read_failure E (get_memes_calls w) ms = Some f)) ->
  (_memes_loaded (self (snd (_load_memes E w))) = false
   /\ memes (self (snd (_load_memes E w))) = []
   /\ meme_keywords (self (snd (_load_memes E w))) = [])
  /\ (get_memes E (get_memes_calls w) = Ok []
      \/ (exists e, get_memes E (get_memes_calls w) = Raise e
                    /\ is_Exception e = true)
      \/ (exists ms f,
            get_memes E (get_memes_calls w) = Ok ms
            /\ first_read_failure E (get_memes_calls w) ms = Some f) ->
      fst (_load_memes E w) = Ok tt)
  /\ get_memes_calls (snd (_load_memes E w)) = S (get_memes_calls w)
  /\ (forall m ms,
        get_memes E (S (get_memes_calls w)) = Ok (m :: ms) ->
        first_read_failure E (S (get_memes_calls w)) (m :: ms) = None ->
        self (snd (_load_memes E (snd (_load_memes E w))))
        = {| memes := m :: ms;
             meme_keywords := flattened E (m :: ms);
             _memes_loaded := true |}).
Proof.
  intros Hr Hl Ha Hfetch.
  apply reachable_consistent in Hr; unfold consistent in Hr.
  rewrite Hl in Hr; destruct Hr as [Hm Hk].
  destruct (load_fetches w Hl Ha) as (Hcalls & Hself & Hret).
  assert (Hstate : self (snd (_load_memes E w))
                   = {| memes := []; meme_keywords := [];
                        _memes_loaded := false |}).
  { rewrite Hself.
    destruct Hfetch as [-> | [(e & ->) | (ms & f & -> & Hf)]].
    - rewrite Hk; reflexivity.
    - destruct (is_Exception e); [reflexivity |].
      destruct w as [[ms ks l] ? ? ?]; simpl in *; subst; reflexivity.
    - destruct ms as [|m ms]; [discriminate |].
      rewrite Hf; reflexivity. }
  split; [rewrite Hstate; auto |].
  split.
  { intros [H | [(e & H & He) | (ms & f & H & _)]]; rewrite Hret, H;
      [|rewrite He|]; reflexivity. }
  split; [exact Hcalls |].
  intros m ms Hnext Hread.
  assert (Hl' : _memes_loaded (self (snd (_load_memes E w))) = false)
    by (rewrite Hstate; reflexivity).
  destruct (load_fetches _ Hl' Ha) as (_ & Hself' & _).
  rewrite Hself', Hcalls, Hnext, Hread.
  unfold flattened; rewrite <- flat_map_concat_map; reflexivity.
Qed.

(** *** Template info *)

Lemma truthy_cons {A} (l : list A) : truthy l = true <-> l <> [].
Proof. destruct l; simpl; split; congruence. Qed.

(** C8, as the code has it.  For a keyword that resolves to a template
    whose [generate_preview] returns, [get_meme_info] returns a
    description and the preview bytes.
    The description is six consecutive parts, each either empty or one
    line: the name line, present exactly when the key is not empty; the
    alias line, when there are keywords; the image-count line, present
    exactly when [max_images > 0], a single count when [min_images] equals
    [max_images] and a range otherwise; the text-count line likewise for
    [max_texts]; the default-texts line, when there are default texts; the
    tags line, when there are tags.  The bytes are the content of the
    buffer when the preview is an in-memory buffer, and the preview itself
    when it is raw bytes. *)
Theorem get_meme_info_description
  (w : World Options) (keyword : pystr) (meme : Meme Options)
  (previewed : Preview) :
  fst (find_meme E keyword w) = Ok (Some meme) ->
  generate_preview meme = Ok previewed ->
  exists name_line alias_line images_line texts_line default_line tags_line,
    fst (get_meme_info repr E keyword w)
    = Ok (Some (name_line ++ alias_line ++ images_line ++ texts_line
                ++ default_line ++ tags_line,
                preview_bytes previewed))
    /\ ((key meme = [] -> name_line = [])
        /\ (key meme <> [] -> name_line = label_name ++ key meme ++ nl))
    /\ ((keywords_of E meme = [] -> alias_line = [])
        /\ (keywords_of E meme <> [] ->
            alias_line
            = label_alias ++ str_of_list repr (keywords_of E meme) ++ nl))
    /\ ((max_images (params_of E meme) <= 0 -> images_line = [])
        /\ (0 < max_images (params_of E meme) ->
            min_images (params_of E meme) = max_images (params_of E meme) ->
            images_line
            = label_images ++ PyStr.of_Z (min_images (params_of E meme))
              ++ unit_images ++ nl)
        /\ (0 < max_images (params_of E meme) ->
            min_images (params_of E meme) <> max_images (params_of E meme) ->
            images_line
            = label_images ++ PyStr.of_Z (min_images (params_of E meme))
              ++ tilde ++ PyStr.of_Z (max_images (params_of E meme))
              ++ unit_images ++ nl))%Z
    /\ ((max_texts (params_of E meme) <= 0 -> texts_line = [])
        /\ (0 < max_texts (params_of E meme) ->
            min_texts (params_of E meme) = max_texts (params_of E meme) ->
            texts_line
            = label_texts ++ PyStr.of_Z (min_texts (params_of E meme))
              ++ unit_texts ++ nl)
        /\ (0 < max_texts (params_of E meme) ->
            min_texts (params_of E meme) <> max_texts (params_of E meme) ->
            texts_line
            = label_texts ++ PyStr.of_Z (min_texts (params_of E meme))
              ++ tilde ++ PyStr.of_Z (max_texts (params_of E meme))
              ++ unit_texts ++ nl))%Z
    /\ ((default_texts (params_of E meme) = [] -> default_line = [])
        /\ (default_texts (params_of E meme) <> [] ->
            default_line
            = label_default
              ++ str_of_list repr (default_texts (params_of E meme)) ++ nl))
    /\ ((tags_of E meme = [] -> tags_line = [])
        /\ (tags_of E meme <> [] ->
            tags_line = label_tags ++ str_of_list repr (tags_of E meme) ++ nl))
    /\ (forall content,
          (previewed = BytesIO content \/ previewed = RawBytes content) ->
          preview_bytes previewed = content).
Proof.
  intros Hfind Hprev.
  exists (if truthy (key meme) then label_name ++ key meme ++ nl else []).
  exists (if truthy (keywords_of E meme)
          then label_alias ++ str_of_list repr (keywords_of E meme) ++ nl
          else []).
  exists (if (max_images (params_of E meme) >? 0)%Z
          then if (min_images (params_of E meme)
                   =? max_images (params_of E meme))%Z
               then label_images ++ PyStr.of_Z (min_images (params_of E meme))
                    ++ unit_images ++ nl
               else label_images ++ PyStr.of_Z (min_images (params_of E meme))
                    ++ tilde ++ PyStr.of_Z (max_images (params_of E meme))
                    ++ unit_images ++ nl
          else []).
  exists (if (max_texts (params_of E meme) >? 0)%Z
          then if (min_texts (params_of E meme)
                   =? max_texts (params_of E meme))%Z
               then label_texts ++ PyStr.of_Z (min_texts (params_of E meme))
                    ++ unit_texts ++ nl
               else label_texts ++ PyStr.of_Z (min_texts (params_of E meme))
                    ++ tilde ++ PyStr.of_Z (max_texts (params_of E meme))
                    ++ unit_texts ++ nl
          else []).
  exists (if truthy (default_texts (params_of E meme))
          then label_default
               ++ str_of_list repr (default_texts (params_of E meme)) ++ nl
          else []).
  exists (if truthy (tags_of E meme)
          then label_tags ++ str_of_list repr (tags_of E meme) ++ nl
          else []).
  split.
  { unfold get_meme_info, bind.
    destruct (find_meme E keyword w) as [r w']; simpl in Hfind; subst r.
    unfold lift, ret; rewrite Hprev; cbv beta iota; cbn [fst].
    do 3 f_equal.
    unfold describe, params_of, tags_of, keywords_of.
    destruct (truthy (key meme)), (is_py_version E);
      repeat match goal with
             | |- context [if ?c then _ else _] => destruct c
             end;
      cbn [app]; rewrite ?app_nil_r, <- ?app_assoc; reflexivity. }
  repeat split.
  - intros ->; reflexivity.
  - intros H; apply truthy_cons in H; rewrite H; reflexivity.
  - intros ->; reflexivity.
  - intros H; apply truthy_cons in H; rewrite H; reflexivity.
  - intros H; destruct (Z.gtb_spec (max_images (params_of E meme)) 0);
      [lia | reflexivity].
  - intros H Heq; destruct (Z.gtb_spec (max_images (params_of E meme)) 0);
      [|lia].
    apply Z.eqb_eq in Heq; rewrite Heq; reflexivity.
  - intros H Hne; destruct (Z.gtb_spec (max_images (params_of E meme)) 0);
      [|lia].
    apply Z.eqb_neq in Hne; rewrite Hne; reflexivity.
  - intros H; destruct (Z.gtb_spec (max_texts (params_of E meme)) 0);
      [lia | reflexivity].
  - intros H Heq; destruct (Z.gtb_spec (max_texts (params_of E meme)) 0);
      [|lia].
    apply Z.eqb_eq in Heq; rewrite Heq; reflexivity.
  - intros H Hne; destruct (Z.gtb_spec (max_texts (params_of E meme)) 0);
      [|lia].
    apply Z.eqb_neq in Hne; rewrite Hne; reflexivity.
  - intros ->; reflexivity.
  - intros H; apply truthy_cons in H; rewrite H; reflexivity.
  - intros ->; reflexivity.
  - intros H; apply truthy_cons in H; rewrite H; reflexivity.
  - intros content [-> | ->]; reflexivity.
Qed.

(** *** Generation *)

Lemma loaded_available (w : World Options) :
  Reachable w ->
  _memes_loaded (self w) = true ->
  MEME_GENERATOR_AVAILABLE E = true.
Proof.
  intros Hr Hl; apply reachable_consistent in Hr.
  unfold consistent in Hr; rewrite Hl in Hr; apply Hr.
Qed.

(** C9. On a reachable manager, [generate_meme] returns none when the
    keyword resolves to no template, in particular whenever the manager is
    not loaded; an exception raised by the parameter collector, or by the
    generator of the selected binding on the collected parameters, is the
    outcome of [generate_meme] itself; and in every case the manager's
    attributes are what they were. *)
Theorem generate_meme_passes_failures_through
  (w : World Options) (event : AstrMessageEvent) (keyword : pystr) :
  Reachable w ->
  (fst (find_meme E keyword w) = Ok None ->
   fst (generate_meme str_of_key E event keyword w) = Ok None)
  /\ (_memes_loaded (self w) = false ->
      fst (generate_meme str_of_key E event keyword w) = Ok None)
  /\ (forall meme e,
        fst (find_meme E keyword w) = Ok (Some meme) ->
        collect_params E event (params_of E meme) = Raise e ->
        fst (generate_meme str_of_key E event keyword w) = Raise e)
  /\ (forall meme images texts options e,
        fst (find_meme E keyword w) = Ok (Some meme) ->
        collect_params E event (params_of E meme)
        = Ok (images, texts, options) ->
        (if is_py_version E
         then call meme (map snd images) texts options
         else generate meme
                (map (fun i => {| name := str_of_key (fst i);
                                  data := snd i |}) images)
                texts options) = Raise e ->
        fst (generate_meme str_of_key E event keyword w) = Raise e)
  /\ self (snd (generate_meme str_of_key E event keyword w)) = self w.
Proof.
  intros Hr.
  assert (Hnone : fst (find_meme E keyword w) = Ok None ->
                  fst (generate_meme str_of_key E event keyword w) = Ok None).
  { intros Hf; unfold generate_meme, bind.
    destruct (find_meme E keyword w) as [r w']; simpl in Hf; subst r.
    reflexivity. }
  split; [exact Hnone |].
  split; [intros Hl; apply Hnone, find_meme_unloaded; exact Hl |].
  split; [|split; [|apply generate_meme_keeps_self]].
  - intros meme e Hf Hc; unfold generate_meme, bind.
    destruct (find_meme E keyword w) as [r w']; simpl in Hf; subst r.
    unfold params_of in Hc; unfold lift; rewrite Hc; reflexivity.
  - intros meme images texts options e Hf Hc Hg.
    pose proof (loaded_available Hr (find_meme_Some_loaded _ _ Hf)) as Ha.
    unfold generate_meme, bind.
    destruct (find_meme E keyword w) as [r w']; simpl in Hf; subst r.
    unfold params_of in Hc; unfold lift, bound_attribute, ret.
    rewrite Hc, Ha; cbv beta iota.
    destruct (is_py_version E).
    + rewrite Hg; reflexivity.
    + destruct images as [|i images]; rewrite Hg; reflexivity.
Qed.

(** *** Keys and the keyword list *)

Lemma is_meme_keyword_loaded (meme_name : pystr) (w : World Options) :
  _memes_loaded (self w) = true ->
  fst (is_meme_keyword meme_name w)
  = Ok (PyStr.mem meme_name (meme_keywords (self w))).
Proof. intros Hl; run; rewrite Hl; reflexivity. Qed.

Lemma in_flattened (k : pystr) (ms : list (Meme Options)) :
  In k (flattened E ms) <-> exists m, In m ms /\ In k (keywords_of E m).
Proof.
  unfold flattened; rewrite <- flat_map_concat_map, in_flat_map; reflexivity.
Qed.

(** A key that no template lists as a keyword is looked up by key alone:
    [is_meme_keyword] of it is false, and [find_meme] of it returns the
    first template, in catalog order, that carries this key. *)
Lemma key_outside_keyword_list (w : World Options) (m : Meme Options) :
  Reachable w ->
  _memes_loaded (self w) = true ->
  In m (memes (self w)) ->
  (forall m', In m' (memes (self w)) -> ~ In (key m) (keywords_of E m')) ->
  fst (is_meme_keyword (key m) w) = Ok false
  /\ (exists m', fst (find_meme E (key m) w) = Ok (Some m')
                 /\ first_such (fun x => key x = key m) (memes (self w)) m')
  /\ (forall before after,
        memes (self w) = before ++ m :: after ->
        Forall (fun x => key x <> key m) before ->
        fst (find_meme E (key m) w) = Ok (Some m)).
Proof.
  intros Hr Hl Hin Hno.
  assert (Hkey : forall x, In x (memes (self w)) ->
                           (matches E (key m) x <-> key x = key m)).
  { intros x Hx; unfold matches; split.
    - intros [H | H]; [symmetry; exact H | exfalso; exact (Hno x Hx H)].
    - intros H; left; symmetry; exact H. }
  assert (Hfirst : forall m',
             first_such (matches E (key m)) (memes (self w)) m'
             <-> first_such (fun x => key x = key m) (memes (self w)) m').
  { intros m'; unfold first_such; split;
      intros (before & after & Hm & Hb & Hx); exists before, after;
      (split; [exact Hm |]);
      (split; [|apply Hkey; [rewrite Hm; apply in_elt | exact Hx]]);
      rewrite Forall_forall in *; intros x Hxb Hp;
      apply (Hb x Hxb), Hkey; try exact Hp;
      rewrite Hm; apply in_or_app; left; exact Hxb. }
  destruct (find_meme_first_such_exists w (key m) Hl) as [Hsome Hnone].
  split; [|split].
  - rewrite is_meme_keyword_loaded by exact Hl.
    rewrite (loaded_keywords_flattened Hr Hl).
    f_equal; apply mem_false; rewrite in_flattened.
    intros (m' & Hm' & Hk); exact (Hno m' Hm' Hk).
  - destruct (fst (find_meme E (key m) w)) as [[m'|]|e] eqn:Hf.
    + exists m'; split; [reflexivity |]; apply Hfirst, Hsome; reflexivity.
    + exfalso.
      assert (Hall : Forall (fun x => ~ matches E (key m) x) (memes (self w)))
        by (apply Hnone; reflexivity).
      rewrite Forall_forall in Hall; apply (Hall m Hin).
      left; reflexivity.
    + rewrite find_meme_loaded in Hf by exact Hl; discriminate.
  - intros before after Hm Hb; apply Hsome, Hfirst.
    exists before, after; auto.
Qed.

Lemma distinct_keys_before (m : Meme Options) before after :
  NoDup (map (@key Options) (before ++ m :: after)) ->
  Forall (fun x => key x <> key m) before.
Proof.
  rewrite map_app; simpl; intros Hnd.
  apply NoDup_remove_2 in Hnd.
  apply Forall_forall; intros x Hx Heq; apply Hnd, in_or_app; left.
  rewrite <- Heq; apply in_map; exact Hx.
Qed.

(** C10. The keyword list built at load holds the templates' keywords and
    not their keys.  On a manager loaded by the load path, whose templates
    have pairwise distinct keys (a key identifies its template), let a
    template of the catalog have a key that no template lists as a
    keyword: [is_meme_keyword] of that key is false, and [find_meme] of
    that key returns that template. *)
Theorem key_is_not_a_keyword (w : World Options) (m : Meme Options) :
  Reachable w ->
  _memes_loaded (self w) = true ->
  NoDup (map (@key Options) (memes (self w))) ->
  In m (memes (self w)) ->
  (forall m', In m' (memes (self w)) -> ~ In (key m) (keywords_of E m')) ->
  fst (is_meme_keyword (key m) w) = Ok false
  /\ fst (find_meme E (key m) w) = Ok (Some m).
Proof.
  intros Hr Hl Hnd Hin Hno.
  destruct (key_outside_keyword_list m Hr Hl Hin Hno) as (Hk & _ & Hfirst).
  split; [exact Hk |].
  destruct (in_split _ _ Hin) as (before & after & Hm).
  apply (Hfirst before after Hm).
  apply (distinct_keys_before m before after); rewrite <- Hm; exact Hnd.
Qed.

(** *** Calls into the library *)

Ltac by_cases_on_world w :=
  destruct w as [[? ? []] ? ? ?]; simpl; auto.

Lemma find_meme_keeps_counters (keyword : pystr) (w : World Options) :
  get_memes_calls (snd (find_meme E keyword w)) = get_memes_calls w
  /\ check_calls (snd (find_meme E keyword w)) = check_calls w.
Proof. run; by_cases_on_world w. Qed.

Lemma is_meme_keyword_keeps_counters (meme_name : pystr) (w : World Options) :
  get_memes_calls (snd (is_meme_keyword meme_name w)) = get_memes_calls w
  /\ check_calls (snd (is_meme_keyword meme_name w)) = check_calls w.
Proof. run; by_cases_on_world w. Qed.

Lemma match_meme_keyword_keeps_counters text fuzzy_match (w : World Options) :
  get_memes_calls (snd (match_meme_keyword text fuzzy_match w))
  = get_memes_calls w
  /\ check_calls (snd (match_meme_keyword text fuzzy_match w)) = check_calls w.
Proof. run; destruct fuzzy_match; by_cases_on_world w. Qed.

Lemma render_meme_list_image_keeps_counters (w : World Options) :
  get_memes_calls (snd (render_meme_list_image E w)) = get_memes_calls w
  /\ check_calls (snd (render_meme_list_image E w)) = check_calls w.
Proof.
  run; destruct (_memes_loaded (self w)); simpl; auto.
  destruct (is_py_version E), (MEME_GENERATOR_AVAILABLE E); simpl; auto.
  destruct (render_meme_list E _ _ _); auto.
Qed.

Lemma get_meme_info_keeps_counters (keyword : pystr) (w : World Options) :
  get_memes_calls (snd (get_meme_info repr E keyword w)) = get_memes_calls w
  /\ check_calls (snd (get_meme_info repr E keyword w)) = check_calls w.
Proof.
  unfold get_meme_info, bind.
  pose proof (find_meme_keeps_counters keyword w) as H.
  destruct (find_meme E keyword w) as [[[m|]|e] w']; simpl in *;
    try assumption.
  unfold lift, ret; destruct (generate_preview m); assumption.
Qed.

Lemma generate_meme_keeps_counters event (keyword : pystr) (w : World Options) :
  get_memes_calls (snd (generate_meme str_of_key E event keyword w))
  = get_memes_calls w
  /\ check_calls (snd (generate_meme str_of_key E event keyword w))
     = check_calls w.
Proof.
  unfold generate_meme, bind.
  pose proof (find_meme_keeps_counters keyword w) as H.
  destruct (find_meme E keyword w) as [[[m|]|e] w']; simpl in *;
    try assumption.
  unfold lift, ret, bound_attribute, raise.
  destruct (collect_params E event _) as [[[images texts] options]|e];
    simpl; [|assumption].
  destruct (is_py_version E).
  - destruct (MEME_GENERATOR_AVAILABLE E); simpl; [|assumption].
    destruct (call m _ _ _); assumption.
  - destruct images as [|i images]; simpl.
    + destruct (generate m _ _ _); assumption.
    + destruct (MEME_GENERATOR_AVAILABLE E); simpl; [|assumption].
      destruct (generate m _ _ _); assumption.
Qed.

Lemma load_keeps_check_calls (w : World Options) :
  check_calls (snd (_load_memes E w)) = check_calls w.
Proof.
  pose proof flatten_keywords_run as Hflat.
  unfold _load_memes; revert Hflat; generalize (flatten_keywords E).
  intros flatten Hflat.
  run; destruct (_memes_loaded (self w)); simpl; [reflexivity |].
  destruct (MEME_GENERATOR_AVAILABLE E); simpl; [|reflexivity].
  destruct (get_memes E (get_memes_calls w)) as [[|m ms]|e]; simpl.
  - reflexivity.
  - rewrite Hflat; simpl.
    destruct (keywords_failure E (get_memes_calls w) m) as [f|]; simpl;
      [destruct f; reflexivity |].
    destruct (first_read_failure E (get_memes_calls w) ms) as [f|]; simpl;
      [destruct f |]; reflexivity.
  - destruct e; reflexivity.
Qed.

Lemma load_when_unavailable_returns (w : World Options) :
  MEME_GENERATOR_AVAILABLE E = false -> fst (_load_memes E w) = Ok tt.
Proof.
  intros H; run; rewrite H; destruct (_memes_loaded (self w)); reflexivity.
Qed.

(** What [_load_memes] returns and what it leaves of the manager and of
    the fetch counter depend on the manager and that counter only. *)
Lemma load_depends_on_manager (w1 w2 : World Options) :
  self w1 = self w2 ->
  get_memes_calls w1 = get_memes_calls w2 ->
  fst (_load_memes E w1) = fst (_load_memes E w2)
  /\ self (snd (_load_memes E w1)) = self (snd (_load_memes E w2))
  /\ get_memes_calls (snd (_load_memes E w1))
     = get_memes_calls (snd (_load_memes E w2)).
Proof.
  intros Hs Hc.
  destruct (_memes_loaded (self w2)) eqn:Hl.
  - rewrite !load_when_loaded by (rewrite ?Hs; exact Hl); simpl; auto.
  - assert (Hl1 : _memes_loaded (self w1) = false) by (rewrite Hs; exact Hl).
    destruct (MEME_GENERATOR_AVAILABLE E) eqn:Ha.
    + destruct (load_fetches w1 Hl1 Ha) as (C1 & S1 & R1).
      destruct (load_fetches w2 Hl Ha) as (C2 & S2 & R2).
      rewrite C1, C2, S1, S2, R1, R2, Hs, Hc; auto.
    + destruct (load_when_unavailable w1 Ha) as [S1 C1].
      destruct (load_when_unavailable w2 Ha) as [S2 C2].
      rewrite !load_when_unavailable_returns by exact Ha.
      rewrite S1, S2, C1, C2; auto.
Qed.

(** The shape of [check_resources]: it stops at once when the library is
    missing; otherwise it reaches [_load_memes] from a world [w'] with the
    same manager and fetch counter, unless the resource check ended in an
    exception that is not an [Exception]. *)
Lemma check_resources_cases (w : World Options) :
  (MEME_GENERATOR_AVAILABLE E = false
   /\ fst (check_resources E w) = Ok tt
   /\ self (snd (check_resources E w)) = self w
   /\ get_memes_calls (snd (check_resources E w)) = get_memes_calls w
   /\ check_calls (snd (check_resources E w)) = check_calls w)
  \/ (MEME_GENERATOR_AVAILABLE E = true
      /\ exists w',
          self w' = self w
          /\ get_memes_calls w' = get_memes_calls w
          /\ ((is_check_resources E = false
               /\ check_calls w' = check_calls w
               /\ check_resources E w = _load_memes E w')
              \/ (is_check_resources E = true
                  /\ check_calls w' = S (check_calls w)
                  /\ ((exists e,
                          check_resources_func E (check_calls w) = Raise e
                          /\ is_Exception e = false
                          /\ check_resources E w = (Raise e, w'))
                      \/ ((check_resources_func E (check_calls w) = Ok tt
                           \/ exists e,
                               check_resources_func E (check_calls w) = Raise e
                               /\ is_Exception e = true)
                          /\ check_resources E w = _load_memes E w'))))).
Proof.
  unfold check_resources.
  remember (_load_memes E) as load eqn:Hload.
  destruct (MEME_GENERATOR_AVAILABLE E); simpl;
    [right; split; [reflexivity |] | left; auto 6].
  destruct (is_check_resources E); simpl.
  - unfold bind, try_except, call_check_resources, logger, raise; simpl.
    destruct (check_resources_func E (check_calls w)) as [[]|e] eqn:Hc; simpl.
    + exists {| self := self w; get_memes_calls := get_memes_calls w;
                check_calls := S (check_calls w);
                log := (INFO, 117) :: (INFO, 111) :: log w |}.
      repeat (split; [reflexivity |]).
      right; repeat (split; [reflexivity |]).
      right; split; [left |]; reflexivity.
    + destruct (is_Exception e) eqn:He; simpl.
      * exists {| self := self w; get_memes_calls := get_memes_calls w;
                  check_calls := S (check_calls w);
                  log := (WARNING, 119) :: (INFO, 111) :: log w |}.
        repeat (split; [reflexivity |]).
        right; repeat (split; [reflexivity |]).
        right; split; [right; exists e; auto | reflexivity].
      * exists {| self := self w; get_memes_calls := get_memes_calls w;
                  check_calls := S (check_calls w);
                  log := (INFO, 111) :: log w |}.
        repeat (split; [reflexivity |]).
        right; repeat (split; [reflexivity |]).
        left; exists e; auto.
  - unfold bind, logger; simpl.
    exists {| self := self w; get_memes_calls := get_memes_calls w;
              check_calls := check_calls w; log := (INFO, 108) :: log w |}.
    repeat (split; [reflexivity |]).
    left; auto.
Qed.

(** *** Keywords, membership and matching together *)

Lemma next_fuzzy_In (text k : pystr) (ks : list pystr) :
  next_fuzzy text ks = Some k -> In k ks /\ PyStr.contains k text = true.
Proof.
  rewrite next_fuzzy_find; intros H; apply find_some in H; exact H.
Qed.

Lemma next_exact_In (text k : pystr) (ks : list pystr) :
  next_exact text ks = Ok (Some k) ->
  In k ks /\ nth_error (PyStr.split text) 0 = Some k.
Proof.
  induction ks as [|k' ks IH]; cbn [next_exact]; [discriminate |].
  destruct (nth_error (PyStr.split text) 0) as [token|] eqn:Ht;
    [|discriminate].
  destruct (PyStr.eqb k' token) eqn:Hk.
  - intros [= <-]; apply eqb_eq in Hk; subst; split; [left|]; reflexivity.
  - intros H; destruct (IH H) as [Hin Hn]; split; [right|]; assumption.
Qed.

Lemma first_token_of_split (text token : pystr) :
  nth_error (PyStr.split text) 0 = Some token -> first_token text token.
Proof.
  intros H; destruct (blank_or_first_token text) as [Hb | (t & Ht)].
  - rewrite (split_blank Hb) in H; discriminate.
  - pose proof (split_first_token Ht) as H'.
    rewrite H in H'; injection H' as ->; exact Ht.
Qed.

Lemma first_token_occurs (text token : pystr) :
  first_token text token -> occurs_in token text.
Proof. intros (blank & rest & -> & _); exists blank, rest; reflexivity. Qed.

Lemma listed_keyword_resolves (w : World Options) (k : pystr) :
  _memes_loaded (self w) = true ->
  (exists m, In m (memes (self w)) /\ In k (keywords_of E m)) ->
  exists m, fst (find_meme E k w) = Ok (Some m)
            /\ In m (memes (self w)) /\ matches E k m.
Proof.
  intros Hl (m0 & Hin & Hk).
  destruct (find_meme_first_such_exists w k Hl) as [Hsome Hnone].
  destruct (fst (find_meme E k w)) as [[m|]|e] eqn:Hf.
  - exists m; split; [reflexivity |].
    destruct (proj1 (Hsome m) eq_refl) as (before & after & Hm & _ & Hx).
    split; [rewrite Hm; apply in_elt | exact Hx].
  - exfalso.
    assert (Hall : Forall (fun x => ~ matches E k x) (memes (self w)))
      by (apply Hnone; reflexivity).
    rewrite Forall_forall in Hall; apply (Hall m0 Hin); right; exact Hk.
  - rewrite find_meme_loaded in Hf by exact Hl; discriminate.
Qed.

Lemma listed_keyword_is_keyword (w : World Options) (meme_name : pystr) :
  Reachable w ->
  _memes_loaded (self w) = true ->
  (exists m, In m (memes (self w)) /\ In meme_name (keywords_of E m)) ->
  fst (is_meme_keyword meme_name w) = Ok true.
Proof.
  intros Hr Hl H; rewrite is_meme_keyword_loaded by exact Hl.
  rewrite (loaded_keywords_flattened Hr Hl).
  f_equal; apply mem_In, in_flattened; exact H.
Qed.

(** X1.  Membership in the keyword list, seen from the catalog: on a manager
    loaded by the load path, [is_meme_keyword] is true of exactly the
    strings that some template of the catalog lists as a keyword. *)
Theorem is_meme_keyword_iff_listed (w : World Options) (meme_name : pystr) :
  Reachable w ->
  _memes_loaded (self w) = true ->
  (fst (is_meme_keyword meme_name w) = Ok true
   <-> exists m, In m (memes (self w)) /\ In meme_name (keywords_of E m))
  /\ (fst (is_meme_keyword meme_name w) = Ok false
      <-> forall m, In m (memes (self w)) -> ~ In meme_name (keywords_of E m)).
Proof.
  intros Hr Hl; rewrite is_meme_keyword_loaded by exact Hl.
  rewrite (loaded_keywords_flattened Hr Hl).
  split.
  - rewrite <- in_flattened, <- mem_In.
    split; [intros [= ->]; reflexivity | intros ->; reflexivity].
  - split.
    + intros [= H] m Hin Hk; apply mem_false in H; apply H.
      apply in_flattened; exists m; auto.
    + intros H; f_equal; apply mem_false; rewrite in_flattened.
      intros (m & Hin & Hk); exact (H m Hin Hk).
Qed.

(** X2.  A keyword that [match_meme_keyword] returns, in either mode, is one
    [is_meme_keyword] accepts and [find_meme] resolves to a template of
    the catalog that lists it or is keyed by it; in fuzzy mode it occurs
    in the text, in exact mode it is the first token of the text. *)
Theorem matched_keyword_resolves
  (w : World Options) (text k : pystr) (fuzzy_match : bool) :
  Reachable w ->
  fst (match_meme_keyword text fuzzy_match w) = Ok (Some k) ->
  fst (is_meme_keyword k w) = Ok true
  /\ (exists m, fst (find_meme E k w) = Ok (Some m)
                /\ In m (memes (self w)) /\ matches E k m)
  /\ (if fuzzy_match then occurs_in k text else first_token text k).
Proof.
  intros Hr Hm.
  destruct (_memes_loaded (self w)) eqn:Hl;
    [|rewrite match_meme_keyword_unloaded in Hm by exact Hl; discriminate].
  rewrite match_meme_keyword_loaded in Hm by exact Hl.
  assert (Hk : In k (meme_keywords (self w))
               /\ (if fuzzy_match then occurs_in k text
                   else first_token text k)).
  { destruct fuzzy_match.
    - injection Hm as Hm; apply next_fuzzy_In in Hm.
      destruct Hm as [Hin Hc]; split; [exact Hin |].
      apply contains_occurs; exact Hc.
    - apply next_exact_In in Hm; destruct Hm as [Hin Hn].
      split; [exact Hin | apply first_token_of_split; exact Hn]. }
  destruct Hk as [Hin Hpos].
  assert (Hlisted : exists m, In m (memes (self w)) /\ In k (keywords_of E m)).
  { apply in_flattened; rewrite <- (loaded_keywords_flattened Hr Hl).
    exact Hin. }
  split; [|split; [apply listed_keyword_resolves; assumption | exact Hpos]].
  apply listed_keyword_is_keyword; assumption.
Qed.

(** X3.  [match_meme_keyword] raises in one situation only: exact mode, a
    loaded manager with at least one keyword, and a text that is empty or
    all whitespace; what it raises then is IndexError.  Fuzzy mode never
    raises. *)
Theorem match_meme_keyword_raises_iff
  (w : World Options) (text : pystr) (fuzzy_match : bool) (e : exn) :
  fst (match_meme_keyword text fuzzy_match w) = Raise e
  <-> e = IndexError
      /\ fuzzy_match = false
      /\ _memes_loaded (self w) = true
      /\ meme_keywords (self w) <> []
      /\ Forall (fun c => PyStr.isspace c = true) text.
Proof.
  split.
  - intros H.
    destruct (_memes_loaded (self w)) eqn:Hl;
      [|rewrite match_meme_keyword_unloaded in H by exact Hl; discriminate].
    destruct fuzzy_match;
      [rewrite match_meme_keyword_loaded in H by exact Hl; discriminate |].
    destruct (match_meme_keyword_exact_cases w text Hl)
      as [(token & _ & Hr) | (Hb & Hr)]; rewrite Hr in H; [discriminate |].
    destruct (meme_keywords (self w)); [discriminate |].
    injection H as <-; repeat split; [discriminate | exact Hb].
  - intros (-> & -> & Hl & Hk & Hb).
    apply match_meme_keyword_blank_text; assumption.
Qed.

(** X4.  Fuzzy mode accepts whatever exact mode accepts: if exact matching of a
    text returns a keyword, fuzzy matching of the same text returns one
    too, no later in the keyword list. *)
Theorem exact_match_implies_fuzzy_match
  (w : World Options) (text k : pystr) :
  fst (match_meme_keyword text false w) = Ok (Some k) ->
  exists k' before after,
    fst (match_meme_keyword text true w) = Ok (Some k')
    /\ meme_keywords (self w) = before ++ k' :: after
    /\ (k' = k \/ In k after).
Proof.
  intros H.
  destruct (_memes_loaded (self w)) eqn:Hl;
    [|rewrite match_meme_keyword_unloaded in H by exact Hl; discriminate].
  rewrite match_meme_keyword_loaded in * by exact Hl.
  destruct (next_exact_In _ _ H) as [Hin Htok].
  assert (Hocc : PyStr.contains k text = true)
    by (apply contains_occurs, first_token_occurs, first_token_of_split;
        exact Htok).
  rewrite next_fuzzy_find.
  destruct (find (fun k0 => PyStr.contains k0 text) (meme_keywords (self w)))
    as [k'|] eqn:Hf.
  - apply (find_first_such _ _ _ (fun y => contains_occurs y text)) in Hf.
    destruct Hf as (before & after & Hm & Hbefore & _).
    exists k', before, after; split; [reflexivity |]; split; [exact Hm |].
    rewrite Hm in Hin; apply in_app_or in Hin.
    destruct Hin as [Hin | [-> | Hin]]; auto.
    rewrite Forall_forall in Hbefore; exfalso; apply (Hbefore k Hin).
    apply contains_occurs; exact Hocc.
  - apply (find_none _ _ Hf) in Hin; congruence.
Qed.

(** X5.  An empty keyword catches everything: on a loaded manager whose keyword
    list holds the empty string, fuzzy matching returns a keyword for
    every text, the empty text included. *)
Theorem empty_keyword_matches_every_text (w : World Options) (text : pystr) :
  _memes_loaded (self w) = true ->
  In [] (meme_keywords (self w)) ->
  exists k, fst (match_meme_keyword text true w) = Ok (Some k)
            /\ In k (meme_keywords (self w)).
Proof.
  intros Hl Hin; rewrite match_meme_keyword_loaded by exact Hl.
  destruct (next_fuzzy text (meme_keywords (self w))) as [k|] eqn:Hf.
  - exists k; split; [reflexivity | apply (next_fuzzy_In _ _ Hf)].
  - rewrite next_fuzzy_find in Hf; apply (find_none _ _ Hf) in Hin.
    destruct text; discriminate.
Qed.

(** X6.  Load, then look up.  When an unloaded manager fetches a catalog
    that is not empty and the keywords of all its templates can be read,
    every keyword of every template fetched is accepted by
    [is_meme_keyword] and resolved by [find_meme] to a fetched template
    that answers to it, and so is every template's key; the first
    template fetched is the one its own key resolves to. *)
Theorem load_then_lookup
  (w : World Options) (m : Meme Options) (ms : list (Meme Options)) :
  _memes_loaded (self w) = false ->
  MEME_GENERATOR_AVAILABLE E = true ->
  get_memes E (get_memes_calls w) = Ok (m :: ms) ->
  first_read_failure E (get_memes_calls w) (m :: ms) = None ->
  fst (_load_memes E w) = Ok tt
  /\ (forall t k,
        In t (m :: ms) -> In k (keywords_of E t) ->
        fst (is_meme_keyword k (snd (_load_memes E w))) = Ok true
        /\ exists t', fst (find_meme E k (snd (_load_memes E w)))
                      = Ok (Some t')
                      /\ In t' (m :: ms) /\ matches E k t')
  /\ (forall t,
        In t (m :: ms) ->
        exists t', fst (find_meme E (key t) (snd (_load_memes E w)))
                   = Ok (Some t')
                   /\ In t' (m :: ms) /\ matches E (key t) t')
  /\ fst (find_meme E (key m) (snd (_load_memes E w))) = Ok (Some m).
Proof.
  intros Hl Ha Hfetch Hread.
  destruct (load_fetches w Hl Ha) as (_ & Hs & Hr).
  rewrite Hfetch in Hs, Hr; rewrite Hread in Hs.
  assert (Hl' : _memes_loaded (self (snd (_load_memes E w))) = true)
    by (rewrite Hs; reflexivity).
  assert (Hm : memes (self (snd (_load_memes E w))) = m :: ms)
    by (rewrite Hs; reflexivity).
  destruct (find_meme_first_such_exists (snd (_load_memes E w)) (key m) Hl')
    as [Hfirst _].
  split; [exact Hr |]; split; [|split].
  - intros t k Ht Hk; split.
    + rewrite is_meme_keyword_loaded by exact Hl'; rewrite Hs; simpl.
      f_equal; apply mem_In.
      change (In k (flat_map (keywords_of E) (m :: ms))).
      apply in_flat_map; exists t; auto.
    + rewrite <- Hm; apply listed_keyword_resolves; [exact Hl' |].
      exists t; rewrite Hm; auto.
  - intros t Ht.
    destruct (find_meme_first_such_exists
                (snd (_load_memes E w)) (key t) Hl') as [Hsome Hnone].
    destruct (fst (find_meme E (key t) (snd (_load_memes E w))))
      as [[t'|]|e] eqn:Hf.
    + exists t'; split; [reflexivity |].
      destruct (proj1 (Hsome t') eq_refl) as (before & after & Hcat & _ & Hx).
      split; [rewrite <- Hm, Hcat; apply in_elt | exact Hx].
    + exfalso.
      assert (Hall : Forall (fun x => ~ matches E (key t) x)
                            (memes (self (snd (_load_memes E w)))))
        by (apply Hnone; reflexivity).
      rewrite Forall_forall, Hm in Hall; apply (Hall t Ht); left; reflexivity.
    + rewrite find_meme_loaded in Hf by exact Hl'; discriminate.
  - apply Hfirst; exists [], ms; repeat split;
      [exact Hm | constructor | left; reflexivity].
Qed.

(** *** Availability, resource check and load *)

Lemma after_keeps_when_unavailable i (w : World Options) :
  MEME_GENERATOR_AVAILABLE E = false ->
  self (after str_of_key repr E i w) = self w
  /\ get_memes_calls (after str_of_key repr E i w) = get_memes_calls w
  /\ check_calls (after str_of_key repr E i w) = check_calls w.
Proof.
  intros Ha; destruct i; simpl.
  - destruct (load_when_unavailable w Ha) as [Hs Hc].
    rewrite load_keeps_check_calls; auto.
  - destruct (check_resources_cases w) as [(_ & _ & H) | (Ha' & _)];
      [exact H | congruence].
  - split; [apply find_meme_keeps_self | apply find_meme_keeps_counters].
  - split; [apply is_meme_keyword_keeps_self
           | apply is_meme_keyword_keeps_counters].
  - split; [apply match_meme_keyword_keeps_self
           | apply match_meme_keyword_keeps_counters].
  - split; [apply render_meme_list_image_keeps_self
           | apply render_meme_list_image_keeps_counters].
  - split; [apply get_meme_info_keeps_self
           | apply get_meme_info_keeps_counters].
  - split; [apply generate_meme_keeps_self
           | apply generate_meme_keeps_counters].
Qed.

(** X7.  Disabled mode.  When meme-generator cannot be imported, whatever
    methods are called afterwards the manager stays unloaded and empty and
    the library is never called: no fetch, no resource check.  In that
    state [check_resources] and [_load_memes] return normally, and
    [generate_meme] returns none. *)
Theorem disabled_manager_stays_inert
  (history : list (invocation AstrMessageEvent))
  (event : AstrMessageEvent) (keyword : pystr) :
  MEME_GENERATOR_AVAILABLE E = false ->
  self (exec str_of_key repr E history (init E))
  = {| memes := []; meme_keywords := []; _memes_loaded := false |}
  /\ get_memes_calls (exec str_of_key repr E history (init E)) = 0
  /\ check_calls (exec str_of_key repr E history (init E)) = 0
  /\ fst (check_resources E (exec str_of_key repr E history (init E))) = Ok tt
  /\ fst (_load_memes E (exec str_of_key repr E history (init E))) = Ok tt
  /\ fst (generate_meme str_of_key E event keyword
            (exec str_of_key repr E history (init E))) = Ok None.
Proof.
  intros Ha.
  assert (H : forall w,
             self (exec str_of_key repr E history w) = self w
             /\ get_memes_calls (exec str_of_key repr E history w)
                = get_memes_calls w
             /\ check_calls (exec str_of_key repr E history w)
                = check_calls w).
  { induction history as [|i history IH]; intros w; simpl; [auto |].
    destruct (IH (after str_of_key repr E i w)) as (-> & -> & ->).
    apply after_keeps_when_unavailable; exact Ha. }
  destruct (H (init E)) as (Hs & Hc & Hk).
  repeat split; try assumption.
  - destruct (check_resources_cases (exec str_of_key repr E history (init E)))
      as [(_ & Hr & _) | (Ha' & _)]; [exact Hr | congruence].
  - apply load_when_unavailable_returns; exact Ha.
  - unfold generate_meme, bind.
    assert (Hl : _memes_loaded
                   (self (exec str_of_key repr E history (init E))) = false)
      by (rewrite Hs; reflexivity).
    pose proof (find_meme_unloaded keyword _ Hl) as [Hf _].
    destruct (find_meme E keyword _) as [r w']; simpl in Hf; subst r.
    reflexivity.
Qed.

(** X8.  A resource check never stands in the way of loading.  With the
    library importable, [check_resources] ends as [_load_memes] would on
    the same manager (same outcome, same manager, same number of fetches)
    when the configuration skips the check, when the check returns, and
    when the check raises an [Exception]; the check is run once in the two
    latter cases and not at all in the first.  Only an exception that is
    not an [Exception] stops it: that one is raised, with no fetch made
    and the manager untouched. *)
Theorem check_resources_then_loads (w : World Options) :
  MEME_GENERATOR_AVAILABLE E = true ->
  ((is_check_resources E = false
    \/ check_resources_func E (check_calls w) = Ok tt
    \/ (exists e, check_resources_func E (check_calls w) = Raise e
                  /\ is_Exception e = true)) ->
   fst (check_resources E w) = fst (_load_memes E w)
   /\ self (snd (check_resources E w)) = self (snd (_load_memes E w))
   /\ get_memes_calls (snd (check_resources E w))
      = get_memes_calls (snd (_load_memes E w))
   /\ check_calls (snd (check_resources E w))
      = if is_check_resources E then S (check_calls w) else check_calls w)
  /\ (forall e,
        is_check_resources E = true ->
        check_resources_func E (check_calls w) = Raise e ->
        is_Exception e = false ->
        fst (check_resources E w) = Raise e
        /\ self (snd (check_resources E w)) = self w
        /\ get_memes_calls (snd (check_resources E w)) = get_memes_calls w).
Proof.
  intros Ha.
  destruct (check_resources_cases w)
    as [(Ha' & _) | (_ & w' & Hs & Hc & Hcase)]; [congruence |].
  destruct (load_depends_on_manager w' w Hs Hc) as (Lf & Ls & Lc).
  pose proof (load_keeps_check_calls w') as Lk.
  split.
  - intros Hgo.
    destruct Hcase as [(Hconf & Hk & Heq)
                      | (Hconf & Hk & [(e & He & Hne & Heq) | (_ & Heq)])].
    + rewrite Heq, Hconf, Lk; auto.
    + exfalso; destruct Hgo as [Hgo | [Hgo | (e' & Hgo & Hex)]];
        congruence.
    + rewrite Heq, Hconf, Lk; auto.
  - intros e Hconf He Hne.
    destruct Hcase as [(Hconf' & _)
                      | (_ & Hk & [(e' & He' & _ & Heq) | ([Hok | (e' & He' & Hex)] & _)])];
      try congruence.
    rewrite Heq; simpl.
    assert (e' = e) by congruence; subst; auto.
Qed.

(** X9.  Neither [_load_memes] nor [check_resources] lets an [Exception] out:
    what either raises, if anything, is an exception outside [Exception]
    that the library raised in the fetch or in the resource check. *)
Theorem load_and_check_contain_exceptions (w : World Options) (e : exn) :
  (fst (_load_memes E w) = Raise e ->
   is_Exception e = false
   /\ get_memes E (get_memes_calls w) = Raise e)
  /\ (fst (check_resources E w) = Raise e ->
      is_Exception e = false
      /\ (check_resources_func E (check_calls w) = Raise e
          \/ get_memes E (get_memes_calls w) = Raise e)).
Proof.
  assert (Hload : forall w0 : World Options,
             fst (_load_memes E w0) = Raise e ->
             is_Exception e = false
             /\ get_memes E (get_memes_calls w0) = Raise e).
  { intros w0 H.
    destruct (_memes_loaded (self w0)) eqn:Hl;
      [rewrite load_when_loaded in H by exact Hl; discriminate |].
    destruct (MEME_GENERATOR_AVAILABLE E) eqn:Ha;
      [|rewrite load_when_unavailable_returns in H by exact Ha; discriminate].
    destruct (load_fetches w0 Hl Ha) as (_ & _ & Hr); rewrite Hr in H.
    destruct (get_memes E (get_memes_calls w0)) as [?|e0]; [discriminate |].
    destruct (is_Exception e0) eqn:He; [discriminate |].
    injection H as <-; auto. }
  split; [apply Hload |].
  intros H.
  destruct (check_resources_cases w)
    as [(_ & Hr & _) | (_ & w' & Hs & Hc & Hcase)]; [congruence |].
  destruct Hcase as [(_ & _ & Heq)
                    | (_ & _ & [(e' & He' & Hne & Heq) | (_ & Heq)])];
    rewrite Heq in H.
  - destruct (Hload w' H) as [Hne Hf]; rewrite Hc in Hf; auto.
  - simpl in H; injection H as <-; auto.
  - destruct (Hload w' H) as [Hne Hf]; rewrite Hc in Hf; auto.
Qed.

Lemma provenance_same_manager (w w' : World Options) :
  self w' = self w ->
  get_memes_calls w' = get_memes_calls w ->
  provenance E w -> provenance E w'.
Proof. unfold provenance; intros -> ->; auto. Qed.

Lemma load_provenance (w : World Options) :
  provenance E w -> provenance E (snd (_load_memes E w)).
Proof.
  intros Hp.
  destruct (_memes_loaded (self w)) eqn:Hl;
    [rewrite load_when_loaded by exact Hl; exact Hp |].
  destruct (MEME_GENERATOR_AVAILABLE E) eqn:Ha.
  - destruct (load_fetches w Hl Ha) as (Hc & Hs & _).
    unfold provenance in *; rewrite Hl in Hp; rewrite Hs, Hc.
    assert (Hnext : forall k,
               ~ fetch_succeeds E (get_memes_calls w) ->
               k < S (get_memes_calls w) -> ~ fetch_succeeds E k).
    { intros k Hno Hk Hsucc.
      destruct (Nat.eq_dec k (get_memes_calls w)) as [-> | Hne].
      - exact (Hno Hsucc).
      - apply (Hp k); [lia | exact Hsucc]. }
    destruct (get_memes E (get_memes_calls w)) as [[|m ms]|e] eqn:Hf.
    + simpl; intros k; apply Hnext.
      intros (m & ms & Hg & _); congruence.
    + destruct (first_read_failure E (get_memes_calls w) (m :: ms)) eqn:Hread;
        cbn [memes meme_keywords _memes_loaded].
      * intros k; apply Hnext.
        intros (m' & ms' & Hg & Hr'); rewrite Hf in Hg.
        injection Hg as <- <-; congruence.
      * exists (get_memes_calls w); auto.
    + assert (Hno : ~ fetch_succeeds E (get_memes_calls w))
        by (intros (m & ms & Hg & _); congruence).
      destruct (is_Exception e); simpl; [|rewrite Hl];
        intros k; apply Hnext; exact Hno.
  - destruct (load_when_unavailable w Ha) as [Hs Hc].
    exact (provenance_same_manager w _ Hs Hc Hp).
Qed.

Lemma after_provenance i (w : World Options) :
  provenance E w -> provenance E (after str_of_key repr E i w).
Proof.
  intros Hp; destruct i; simpl.
  - apply load_provenance; exact Hp.
  - destruct (check_resources_cases w)
      as [(_ & _ & Hs & Hc & _) | (_ & w' & Hs & Hc & Hcase)].
    + exact (provenance_same_manager w _ Hs Hc Hp).
    + pose proof (provenance_same_manager w w' Hs Hc Hp) as Hp'.
      destruct Hcase as [(_ & _ & Heq)
                        | (_ & _ & [(e & _ & _ & Heq) | (_ & Heq)])];
        rewrite Heq; try (apply load_provenance; exact Hp').
      exact Hp'.
  - exact (provenance_same_manager w _ (find_meme_keeps_self _ w)
             (proj1 (find_meme_keeps_counters _ w)) Hp).
  - exact (provenance_same_manager w _ (is_meme_keyword_keeps_self _ w)
             (proj1 (is_meme_keyword_keeps_counters _ w)) Hp).
  - exact (provenance_same_manager w _ (match_meme_keyword_keeps_self _ _ w)
             (proj1 (match_meme_keyword_keeps_counters _ _ w)) Hp).
  - exact (provenance_same_manager w _ (render_meme_list_image_keeps_self w)
             (proj1 (render_meme_list_image_keeps_counters w)) Hp).
  - exact (provenance_same_manager w _ (get_meme_info_keeps_self _ w)
             (proj1 (get_meme_info_keeps_counters _ w)) Hp).
  - exact (provenance_same_manager w _ (generate_meme_keeps_self _ _ w)
             (proj1 (generate_meme_keeps_counters _ _ w)) Hp).
Qed.

(** X10.  The catalog is the first fetch that succeeded, a fetch succeeding
    when it returns templates whose keywords can all be read.  On every
    manager reached from construction: if it is loaded, its catalog is what
    [get_memes] returned at the last fetch made, that catalog is not
    empty, its keywords could all be read, and no earlier fetch succeeded;
    if it is not loaded, no fetch made so far succeeded. *)
Theorem catalog_is_first_successful_fetch (w : World Options) :
  Reachable w ->
  (_memes_loaded (self w) = true ->
   exists n,
     get_memes_calls w = S n
     /\ get_memes E n = Ok (memes (self w))
     /\ memes (self w) <> []
     /\ first_read_failure E n (memes (self w)) = None
     /\ forall k, k < n -> ~ fetch_succeeds E k)
  /\ (_memes_loaded (self w) = false ->
      forall k, k < get_memes_calls w -> ~ fetch_succeeds E k).
Proof.
  intros Hr.
  pose proof (reachable_consistent Hr) as Hc.
  assert (Hp : provenance E w).
  { clear Hc; destruct Hr as (history & ->).
    assert (H : forall w0, provenance E w0 ->
                           provenance E (exec str_of_key repr E history w0)).
    { induction history as [|i history IH]; intros w0 H0; simpl; [exact H0 |].
      apply IH, after_provenance; exact H0. }
    apply H; unfold provenance, init; simpl; intros k Hk; lia. }
  unfold provenance in Hp; unfold consistent in Hc.
  split; intros Hl; rewrite Hl in Hp, Hc.
  - destruct Hp as (n & Hn & Hf & Hread & Hno).
    exists n; repeat split; try assumption.
    apply Hc.
  - exact Hp.
Qed.

(** *** Rendering, info and generation *)

Lemma find_meme_never_raises (keyword : pystr) (w : World Options) :
  forall e, fst (find_meme E keyword w) <> Raise e.
Proof.
  intros e; destruct (_memes_loaded (self w)) eqn:Hl.
  - rewrite find_meme_loaded by exact Hl; discriminate.
  - destruct (find_meme_unloaded keyword w Hl) as [-> _]; discriminate.
Qed.

(** X11.  On a loaded manager of the current binding (version 0.2.0 or later)
    [render_meme_list_image] raises NameError: the sort key it passes,
    [MemeSortBy], is imported inside [__init__] only.  The manager is left
    as it was. *)
Theorem render_meme_list_image_current_binding (w : World Options) :
  Reachable w ->
  _memes_loaded (self w) = true ->
  is_py_version E = false ->
  fst (render_meme_list_image E w) = Raise NameError
  /\ self (snd (render_meme_list_image E w)) = self w.
Proof.
  intros Hr Hl Hv; split; [|apply render_meme_list_image_keeps_self].
  pose proof (loaded_available Hr Hl) as Ha.
  run; rewrite Hl, Hv, Ha; reflexivity.
Qed.

(** X12.  [get_meme_info] returns none exactly when [find_meme] finds no
    template; for a template found, an exception of its
    [generate_preview] is the outcome of [get_meme_info], and a preview
    returned gives a result that is not none. *)
Theorem get_meme_info_outcomes (w : World Options) (keyword : pystr) :
  (fst (get_meme_info repr E keyword w) = Ok None
   <-> fst (find_meme E keyword w) = Ok None)
  /\ (forall meme e,
        fst (find_meme E keyword w) = Ok (Some meme) ->
        generate_preview meme = Raise e ->
        fst (get_meme_info repr E keyword w) = Raise e)
  /\ (forall e,
        fst (get_meme_info repr E keyword w) = Raise e ->
        exists meme, fst (find_meme E keyword w) = Ok (Some meme)
                     /\ generate_preview meme = Raise e).
Proof.
  pose proof (find_meme_never_raises keyword w) as Hnr.
  unfold get_meme_info, bind, lift, ret.
  destruct (find_meme E keyword w) as [[[m|]|e0] w']; simpl in *.
  - repeat split.
    + destruct (generate_preview m); discriminate.
    + discriminate.
    + intros meme e [= <-] ->; reflexivity.
    + intros e H; exists m; split; [reflexivity |].
      destruct (generate_preview m); simpl in H; [discriminate | congruence].
  - repeat split; try discriminate; reflexivity.
  - exfalso; exact (Hnr e0 eq_refl).
Qed.

(** X13.  [generate_meme] returns none exactly when [find_meme] finds no
    template: a template found leads to bytes or to an exception, never
    to none. *)
Theorem generate_meme_none_iff_unresolved
  (w : World Options) (event : AstrMessageEvent) (keyword : pystr) :
  fst (generate_meme str_of_key E event keyword w) = Ok None
  <-> fst (find_meme E keyword w) = Ok None.
Proof.
  pose proof (find_meme_never_raises keyword w) as Hnr.
  unfold generate_meme, bind, lift, ret, bound_attribute, raise.
  destruct (find_meme E keyword w) as [[[m|]|e0] w']; simpl in *.
  - split; [|discriminate].
    destruct (collect_params E event _) as [[[images texts] options]|e];
      simpl; [|discriminate].
    destruct (is_py_version E).
    + destruct (MEME_GENERATOR_AVAILABLE E); simpl; [|discriminate].
      destruct (call m _ _ _); discriminate.
    + destruct images as [|i images]; simpl.
      * destruct (generate m _ _ _); discriminate.
      * destruct (MEME_GENERATOR_AVAILABLE E); simpl; [|discriminate].
        destruct (generate m _ _ _); discriminate.
  - split; reflexivity.
  - exfalso; exact (Hnr e0 eq_refl).
Qed.

(** X14.  The binding is chosen by the version alone: a library that cannot be
    imported counts as current; an importable one with a three-part
    version of non-negative numbers is legacy exactly when the version is
    0.0.x or 0.1.x. *)
Theorem is_py_version_threshold :
  (MEME_GENERATOR_AVAILABLE E = false -> is_py_version E = false)
  /\ (forall major minor patch,
        MEME_GENERATOR_AVAILABLE E = true ->
        version E = [major; minor; patch] ->
        (0 <= major -> 0 <= minor -> 0 <= patch ->
         (is_py_version E = true <-> major = 0 /\ minor < 2)))%Z.
Proof.
  unfold is_py_version, __version__; split.
  - intros ->; reflexivity.
  - intros major minor patch -> -> H1 H2 H3; simpl.
    destruct (Z.ltb_spec major 0); [lia |].
    destruct (Z.ltb_spec 0 major); [split; [discriminate | lia] |].
    destruct (Z.ltb_spec minor 2); [split; [lia | reflexivity] |].
    destruct (Z.ltb_spec 2 minor); [split; [discriminate | lia] |].
    destruct (Z.ltb_spec patch 0); [lia |].
    destruct (Z.ltb_spec 0 patch); split; try discriminate; lia.
Qed.

End Properties.

(** * The properties on the concrete library *)

Section Instances.

Import Example.

Local Notation "'Reachable'" := (reachable str_of_nat plain_repr lib).

Lemma loaded_world_reachable : Reachable loaded_world.
Proof.
  exists [Check_resources unit; Check_resources unit; Check_resources unit].
  reflexivity.
Defined.

Lemma draw_is_first_token : first_token (s "draw cat now") (s "draw").
Proof.
  exists [], (s " cat now"); repeat split.
  - constructor.
  - discriminate.
  - repeat constructor.
  - right; exists 32%N, (s "cat now"); split; reflexivity.
Defined.

(** The catalog [ksyx; sketch; doodle]: "draw" is an alias of sketch and of
    doodle, and resolves to sketch. *)
Example find_meme_shared_alias :
  fst (find_meme lib (s "draw") loaded_world) = Ok (Some sketch).
Proof. reflexivity. Qed.

Lemma match_meme_keyword_first_in_order_witness :
  Reachable loaded_world
  /\ _memes_loaded (self loaded_world) = true
  /\ first_such (fun k => occurs_in k (s "draw cat now"))
                (flattened lib (memes (self loaded_world))) (s "raw")
  /\ first_such (fun k => k = s "draw")
                (flattened lib (memes (self loaded_world))) (s "draw").
Proof.
  assert (Hl : _memes_loaded (self loaded_world) = true) by reflexivity.
  destruct (@match_meme_keyword_first_in_order
              _ _ _ str_of_nat plain_repr lib loaded_world (s "draw cat now")
              loaded_world_reachable Hl) as [[Hfuzzy _] Hexact].
  split; [exact loaded_world_reachable |].
  split; [exact Hl |].
  split.
  - apply Hfuzzy; reflexivity.
  - apply (Hexact (s "draw") draw_is_first_token); reflexivity.
Defined.

(** C3, on the code.  The example manager is loaded and none of its
    keywords matches the empty text or a text of three blanks.  Fuzzy
    matching returns none on both; exact matching raises IndexError on
    both, where the specification has it return none. *)
Theorem exact_match_of_blank_text_raises :
  _memes_loaded (self loaded_world) = true
  /\ fst (match_meme_keyword [] true loaded_world) = Ok None
  /\ fst (match_meme_keyword (s "   ") true loaded_world) = Ok None
  /\ fst (match_meme_keyword [] false loaded_world) = Raise IndexError
  /\ fst (match_meme_keyword (s "   ") false loaded_world) = Raise IndexError.
Proof. repeat split; reflexivity. Qed.

Lemma unloaded_queries_answer_nothing_witness :
  _memes_loaded (self (init lib)) = false
  /\ (fst (find_meme lib (s "ksyx") (init lib)) = Ok None
      /\ fst (is_meme_keyword (s "draw") (init lib)) = Ok false
      /\ fst (match_meme_keyword [] false (init lib)) = Ok None
      /\ fst (render_meme_list_image lib (init lib)) = Ok None
      /\ fst (get_meme_info plain_repr lib (s "ksyx") (init lib)) = Ok None).
Proof.
  split; [reflexivity |].
  apply (@unloaded_queries_answer_nothing
           _ _ _ plain_repr lib (init lib) (s "ksyx") (s "draw") [] false).
  reflexivity.
Defined.

Lemma loaded_manager_is_frozen_witness :
  _memes_loaded (self loaded_world) = true
  /\ (_memes_loaded
        (self (exec str_of_nat plain_repr lib busy_history loaded_world))
      = true
      /\ memes (self (exec str_of_nat plain_repr lib busy_history loaded_world))
         = memes (self loaded_world)
      /\ meme_keywords
           (self (exec str_of_nat plain_repr lib busy_history loaded_world))
         = meme_keywords (self loaded_world)).
Proof.
  split; [reflexivity |].
  apply (@loaded_manager_is_frozen
           _ _ _ str_of_nat plain_repr lib loaded_world busy_history).
  reflexivity.
Defined.

Lemma load_memes_when_loaded_is_noop_witness :
  _memes_loaded (self loaded_world) = true
  /\ (fst (_load_memes lib loaded_world) = Ok tt
      /\ memes (self (snd (_load_memes lib loaded_world)))
         = memes (self loaded_world)
      /\ meme_keywords (self (snd (_load_memes lib loaded_world)))
         = meme_keywords (self loaded_world)
      /\ _memes_loaded (self (snd (_load_memes lib loaded_world))) = true
      /\ get_memes_calls (snd (_load_memes lib loaded_world))
         = get_memes_calls loaded_world
      /\ snd (_load_memes lib loaded_world) = loaded_world).
Proof.
  split; [reflexivity |].
  apply (@load_memes_when_loaded_is_noop _ _ _ lib loaded_world); reflexivity.
Defined.

Lemma init_partial_reachable :
  reachable str_of_nat plain_repr lib_partial (init lib_partial).
Proof. exists []; reflexivity. Defined.

Lemma failed_load_leaves_manager_empty_witness :
  reachable str_of_nat plain_repr lib_partial (init lib_partial)
  /\ _memes_loaded (self (init lib_partial)) = false
  /\ MEME_GENERATOR_AVAILABLE lib_partial = true
  /\ get_memes lib_partial (get_memes_calls (init lib_partial)) = Ok catalog
  /\ first_read_failure lib_partial (get_memes_calls (init lib_partial))
       catalog = Some MissingAttribute
  /\ fst (_load_memes lib_partial (init lib_partial)) = Ok tt
  /\ _memes_loaded (self (snd (_load_memes lib_partial (init lib_partial))))
     = false
  /\ memes (self (snd (_load_memes lib_partial (init lib_partial)))) = []
  /\ meme_keywords (self (snd (_load_memes lib_partial (init lib_partial))))
     = []
  /\ self (snd (_load_memes lib_partial
                  (snd (_load_memes lib_partial (init lib_partial)))))
     = {| memes := catalog;
          meme_keywords := flattened lib_partial catalog;
          _memes_loaded := true |}.
Proof.
  assert (Hl : _memes_loaded (self (init lib_partial)) = false)
    by reflexivity.
  assert (Ha : MEME_GENERATOR_AVAILABLE lib_partial = true) by reflexivity.
  assert (Hf : get_memes lib_partial (get_memes_calls (init lib_partial))
               = Ok catalog) by reflexivity.
  assert (Hr : first_read_failure lib_partial
                 (get_memes_calls (init lib_partial)) catalog
               = Some MissingAttribute) by reflexivity.
  assert (Hfail :
            exists ms f,
              get_memes lib_partial (get_memes_calls (init lib_partial))
              = Ok ms
              /\ first_read_failure lib_partial
                   (get_memes_calls (init lib_partial)) ms = Some f)
    by (exists catalog, MissingAttribute; split; assumption).
  destruct (@failed_load_leaves_manager_empty
              _ _ _ str_of_nat plain_repr lib_partial (init lib_partial)
              init_partial_reachable Hl Ha
              (or_intror (or_intror Hfail)))
    as ((H1 & H2 & H3) & Hret & _ & Hretry).
  split; [exact init_partial_reachable |].
  repeat (split; [assumption |]).
  split; [apply Hret; right; right; exact Hfail |].
  repeat (split; [assumption |]).
  apply (Hretry ksyx [sketch; doodle]); reflexivity.
Defined.

(** C8, as stated, fails on a resolved template whose preview cannot be
    generated: for doodle, [get_meme_info] raises what [generate_preview]
    raises and returns no pair. *)
Lemma get_meme_info_of_failing_preview :
  fst (find_meme lib (s "doodle") loaded_world) = Ok (Some doodle)
  /\ generate_preview doodle = Raise (OtherException 5)
  /\ fst (get_meme_info plain_repr lib (s "doodle") loaded_world)
     = Raise (OtherException 5)
  /\ (forall description image,
        fst (get_meme_info plain_repr lib (s "doodle") loaded_world)
        <> Ok (Some (description, image))).
Proof.
  assert (H : fst (get_meme_info plain_repr lib (s "doodle") loaded_world)
              = Raise (OtherException 5)) by (vm_compute; reflexivity).
  repeat split; try reflexivity; try exact H.
  intros description image; rewrite H; discriminate.
Qed.

Lemma get_meme_info_description_witness :
  fst (find_meme lib [30475; 117; 112; 120]%N loaded_world) = Ok (Some ksyx)
  /\ generate_preview ksyx = Ok (BytesIO png)
  /\ fst (get_meme_info plain_repr lib [30475; 117; 112; 120]%N loaded_world)
     = Ok (Some (label_name ++ s "ksyx" ++ nl
                 ++ label_alias
                 ++ (s "['" ++ [30475; 117; 112; 120]%N ++ s "', '"
                     ++ [30475; 23546]%N ++ s "']") ++ nl
                 ++ label_images ++ s "1" ++ unit_images ++ nl,
                 png)).
Proof.
  assert (Hf : fst (find_meme lib [30475; 117; 112; 120]%N loaded_world)
               = Ok (Some ksyx)) by reflexivity.
  assert (Hp : generate_preview ksyx = Ok (BytesIO png)) by reflexivity.
  split; [exact Hf |].
  split; [exact Hp |].
  destruct (@get_meme_info_description
              _ _ _ plain_repr lib loaded_world [30475; 117; 112; 120]%N
              ksyx (BytesIO png) Hf Hp)
    as (l1 & l2 & l3 & l4 & l5 & l6 & Heq & (_ & H1) & (_ & H2)
        & (_ & H3 & _) & (H4 & _) & (H5 & _) & (H6 & _) & _).
  rewrite Heq, H1, H2, H3, H4, H5, H6;
    solve [reflexivity | discriminate | cbv; discriminate].
Defined.

Lemma generate_meme_passes_failures_through_witness :
  Reachable loaded_world
  /\ fst (generate_meme str_of_nat lib tt (s "nothing") loaded_world) = Ok None
  /\ fst (generate_meme str_of_nat lib tt (s "raw") loaded_world)
     = Raise (OtherException 7)
  /\ fst (generate_meme str_of_nat lib tt (s "ksyx") loaded_world)
     = Raise (OtherException 3)
  /\ self (snd (generate_meme str_of_nat lib tt (s "ksyx") loaded_world))
     = self loaded_world.
Proof.
  split; [exact loaded_world_reachable |].
  split; [|split; [|split]].
  - apply (proj1
             (@generate_meme_passes_failures_through
                _ _ _ str_of_nat plain_repr lib loaded_world tt (s "nothing")
                loaded_world_reachable)).
    reflexivity.
  - apply (proj1 (proj2 (proj2
             (@generate_meme_passes_failures_through
                _ _ _ str_of_nat plain_repr lib loaded_world tt (s "raw")
                loaded_world_reachable))) sketch); reflexivity.
  - apply (proj1 (proj2 (proj2 (proj2
             (@generate_meme_passes_failures_through
                _ _ _ str_of_nat plain_repr lib loaded_world tt (s "ksyx")
                loaded_world_reachable)))) ksyx [(0, png)] [] tt);
      reflexivity.
  - apply (proj2 (proj2 (proj2 (proj2
             (@generate_meme_passes_failures_through
                _ _ _ str_of_nat plain_repr lib loaded_world tt (s "ksyx")
                loaded_world_reachable))))).
Defined.

Lemma sketch_key_in_no_keyword_list (m' : Meme unit) :
  In m' catalog -> ~ In (key sketch) (keywords_of lib m').
Proof.
  assert (H : forallb (fun x => negb (PyStr.mem (key sketch)
                                        (keywords_of lib x)))
                      catalog = true)
    by (vm_compute; reflexivity).
  rewrite forallb_forall in H; intros Hin.
  apply mem_false, negb_true_iff, H; exact Hin.
Qed.

Lemma loaded_world_keys_distinct :
  NoDup (map (@key unit) (memes (self loaded_world))).
Proof.
  vm_compute.
  repeat (constructor; [apply mem_false; vm_compute; reflexivity |]).
  constructor.
Qed.

Lemma key_is_not_a_keyword_witness :
  Reachable loaded_world
  /\ _memes_loaded (self loaded_world) = true
  /\ NoDup (map (@key unit) (memes (self loaded_world)))
  /\ In sketch (memes (self loaded_world))
  /\ fst (is_meme_keyword (key sketch) loaded_world) = Ok false
  /\ fst (find_meme lib (key sketch) loaded_world) = Ok (Some sketch).
Proof.
  assert (Hl : _memes_loaded (self loaded_world) = true) by reflexivity.
  assert (Hin : In sketch (memes (self loaded_world)))
    by (right; left; reflexivity).
  split; [exact loaded_world_reachable |].
  split; [exact Hl |].
  split; [exact loaded_world_keys_distinct |].
  split; [exact Hin |].
  exact (@key_is_not_a_keyword
           _ _ _ str_of_nat plain_repr lib loaded_world sketch
           loaded_world_reachable Hl loaded_world_keys_distinct Hin
           sketch_key_in_no_keyword_list).
Defined.

Lemma is_meme_keyword_iff_listed_witness :
  Reachable loaded_world
  /\ _memes_loaded (self loaded_world) = true
  /\ (exists m, In m (memes (self loaded_world))
                /\ In (s "draw") (keywords_of lib m))
  /\ (forall m, In m (memes (self loaded_world)) ->
                ~ In (s "sketch") (keywords_of lib m)).
Proof.
  assert (Hl : _memes_loaded (self loaded_world) = true) by reflexivity.
  split; [exact loaded_world_reachable |].
  split; [exact Hl |].
  split.
  - apply (proj1 (@is_meme_keyword_iff_listed
                    _ _ _ str_of_nat plain_repr lib loaded_world (s "draw")
                    loaded_world_reachable Hl)).
    reflexivity.
  - apply (proj2 (@is_meme_keyword_iff_listed
                    _ _ _ str_of_nat plain_repr lib loaded_world (s "sketch")
                    loaded_world_reachable Hl)).
    reflexivity.
Defined.

Lemma matched_keyword_resolves_witness :
  Reachable loaded_world
  /\ fst (match_meme_keyword (s "draw cat now") true loaded_world)
     = Ok (Some (s "raw"))
  /\ fst (is_meme_keyword (s "raw") loaded_world) = Ok true
  /\ (exists m, fst (find_meme lib (s "raw") loaded_world) = Ok (Some m)
                /\ In m (memes (self loaded_world))
                /\ matches lib (s "raw") m)
  /\ occurs_in (s "raw") (s "draw cat now").
Proof.
  assert (Hm : fst (match_meme_keyword (s "draw cat now") true loaded_world)
               = Ok (Some (s "raw"))) by reflexivity.
  split; [exact loaded_world_reachable |].
  split; [exact Hm |].
  exact (@matched_keyword_resolves
           _ _ _ str_of_nat plain_repr lib loaded_world (s "draw cat now")
           (s "raw") true loaded_world_reachable Hm).
Defined.

Lemma exact_match_implies_fuzzy_match_witness :
  fst (match_meme_keyword (s "draw cat now") false loaded_world)
  = Ok (Some (s "draw"))
  /\ exists k' before after,
       fst (match_meme_keyword (s "draw cat now") true loaded_world)
       = Ok (Some k')
       /\ meme_keywords (self loaded_world) = before ++ k' :: after
       /\ (k' = s "draw" \/ In (s "draw") after).
Proof.
  assert (Hm : fst (match_meme_keyword (s "draw cat now") false loaded_world)
               = Ok (Some (s "draw"))) by reflexivity.
  split; [exact Hm |].
  exact (@exact_match_implies_fuzzy_match
           _ loaded_world (s "draw cat now") (s "draw") Hm).
Defined.

Lemma empty_keyword_matches_every_text_witness :
  _memes_loaded (self blank_world) = true
  /\ In [] (meme_keywords (self blank_world))
  /\ exists k, fst (match_meme_keyword (s "hello") true blank_world)
               = Ok (Some k)
               /\ In k (meme_keywords (self blank_world)).
Proof.
  assert (Hl : _memes_loaded (self blank_world) = true) by reflexivity.
  assert (Hin : In [] (meme_keywords (self blank_world)))
    by (right; left; reflexivity).
  split; [exact Hl |].
  split; [exact Hin |].
  exact (@empty_keyword_matches_every_text _ blank_world (s "hello") Hl Hin).
Defined.

Lemma load_then_lookup_witness :
  _memes_loaded (self partial_world) = false
  /\ MEME_GENERATOR_AVAILABLE lib_partial = true
  /\ get_memes lib_partial (get_memes_calls partial_world) = Ok catalog
  /\ first_read_failure lib_partial (get_memes_calls partial_world) catalog
     = None
  /\ fst (_load_memes lib_partial partial_world) = Ok tt
  /\ fst (is_meme_keyword (s "raw") (snd (_load_memes lib_partial partial_world)))
     = Ok true
  /\ fst (find_meme lib_partial (key ksyx)
            (snd (_load_memes lib_partial partial_world))) = Ok (Some ksyx).
Proof.
  assert (Hl : _memes_loaded (self partial_world) = false) by reflexivity.
  assert (Ha : MEME_GENERATOR_AVAILABLE lib_partial = true) by reflexivity.
  assert (Hf : get_memes lib_partial (get_memes_calls partial_world)
               = Ok catalog) by reflexivity.
  assert (Hr : first_read_failure lib_partial (get_memes_calls partial_world)
                 catalog = None) by reflexivity.
  destruct (@load_then_lookup
              _ _ _ lib_partial partial_world ksyx [sketch; doodle]
              Hl Ha Hf Hr) as (Hret & Hk & _ & Hfirst).
  repeat (split; [assumption |]).
  split; [|exact Hfirst].
  apply (Hk sketch (s "raw")); [right; left; reflexivity | left; reflexivity].
Defined.

Lemma disabled_manager_stays_inert_witness :
  MEME_GENERATOR_AVAILABLE lib_missing = false
  /\ self (exec str_of_nat plain_repr lib_missing busy_history
             (init lib_missing))
     = {| memes := []; meme_keywords := []; _memes_loaded := false |}
  /\ get_memes_calls (exec str_of_nat plain_repr lib_missing busy_history
                        (init lib_missing)) = 0
  /\ check_calls (exec str_of_nat plain_repr lib_missing busy_history
                    (init lib_missing)) = 0
  /\ fst (check_resources lib_missing
            (exec str_of_nat plain_repr lib_missing busy_history
               (init lib_missing))) = Ok tt
  /\ fst (_load_memes lib_missing
            (exec str_of_nat plain_repr lib_missing busy_history
               (init lib_missing))) = Ok tt
  /\ fst (generate_meme str_of_nat lib_missing tt (s "draw")
            (exec str_of_nat plain_repr lib_missing busy_history
               (init lib_missing))) = Ok None.
Proof.
  split; [reflexivity |].
  apply (@disabled_manager_stays_inert
           _ _ _ str_of_nat plain_repr lib_missing busy_history tt (s "draw")).
  reflexivity.
Defined.

Lemma check_resources_then_loads_witness :
  MEME_GENERATOR_AVAILABLE lib = true
  /\ check_resources_func lib (check_calls retry_world)
     = Raise (OtherException 1)
  /\ fst (check_resources lib retry_world) = fst (_load_memes lib retry_world)
  /\ self (snd (check_resources lib retry_world))
     = self (snd (_load_memes lib retry_world))
  /\ get_memes_calls (snd (check_resources lib retry_world))
     = get_memes_calls (snd (_load_memes lib retry_world))
  /\ check_calls (snd (check_resources lib retry_world))
     = S (check_calls retry_world).
Proof.
  assert (Ha : MEME_GENERATOR_AVAILABLE lib = true) by reflexivity.
  assert (Hc : check_resources_func lib (check_calls retry_world)
               = Raise (OtherException 1)) by reflexivity.
  split; [exact Ha |].
  split; [exact Hc |].
  apply (proj1 (@check_resources_then_loads _ _ _ lib retry_world Ha)).
  right; right; exists (OtherException 1); split; [exact Hc | reflexivity].
Defined.

Lemma load_and_check_contain_exceptions_witness :
  fst (_load_memes lib_cancelled (init lib_cancelled)) = Raise (BaseOnly 0)
  /\ fst (check_resources lib_cancelled (init lib_cancelled))
     = Raise (BaseOnly 1)
  /\ is_Exception (BaseOnly 0) = false
  /\ is_Exception (BaseOnly 1) = false.
Proof.
  assert (H0 : fst (_load_memes lib_cancelled (init lib_cancelled))
               = Raise (BaseOnly 0)) by reflexivity.
  assert (H1 : fst (check_resources lib_cancelled (init lib_cancelled))
               = Raise (BaseOnly 1)) by reflexivity.
  split; [exact H0 |].
  split; [exact H1 |].
  split.
  - apply (proj1 (@load_and_check_contain_exceptions
                    _ _ _ lib_cancelled (init lib_cancelled) (BaseOnly 0))
             H0).
  - apply (proj2 (@load_and_check_contain_exceptions
                    _ _ _ lib_cancelled (init lib_cancelled) (BaseOnly 1))
             H1).
Defined.

Lemma catalog_is_first_successful_fetch_witness :
  Reachable loaded_world
  /\ _memes_loaded (self loaded_world) = true
  /\ exists n,
       get_memes_calls loaded_world = S n
       /\ get_memes lib n = Ok (memes (self loaded_world))
       /\ memes (self loaded_world) <> []
       /\ first_read_failure lib n (memes (self loaded_world)) = None
       /\ forall k, k < n -> ~ fetch_succeeds lib k.
Proof.
  split; [exact loaded_world_reachable |].
  split; [reflexivity |].
  apply (proj1 (@catalog_is_first_successful_fetch
                  _ _ _ str_of_nat plain_repr lib loaded_world
                  loaded_world_reachable)).
  reflexivity.
Defined.

Lemma render_meme_list_image_current_binding_witness :
  Reachable loaded_world
  /\ _memes_loaded (self loaded_world) = true
  /\ is_py_version lib = false
  /\ fst (render_meme_list_image lib loaded_world) = Raise NameError
  /\ self (snd (render_meme_list_image lib loaded_world)) = self loaded_world.
Proof.
  split; [exact loaded_world_reachable |].
  split; [reflexivity |].
  split; [reflexivity |].
  apply (@render_meme_list_image_current_binding
           _ _ _ str_of_nat plain_repr lib loaded_world
           loaded_world_reachable); reflexivity.
Defined.

Lemma get_meme_info_outcomes_witness :
  fst (find_meme lib (s "doodle") loaded_world) = Ok (Some doodle)
  /\ generate_preview doodle = Raise (OtherException 5)
  /\ fst (get_meme_info plain_repr lib (s "doodle") loaded_world)
     = Raise (OtherException 5)
  /\ fst (get_meme_info plain_repr lib (s "nothing") loaded_world) = Ok None.
Proof.
  assert (Hf : fst (find_meme lib (s "doodle") loaded_world)
               = Ok (Some doodle)) by reflexivity.
  assert (Hp : generate_preview doodle = Raise (OtherException 5))
    by reflexivity.
  split; [exact Hf |].
  split; [exact Hp |].
  split.
  - apply (proj1 (proj2 (@get_meme_info_outcomes
                           _ _ _ plain_repr lib loaded_world (s "doodle")))
             doodle (OtherException 5) Hf Hp).
  - apply (proj1 (@get_meme_info_outcomes
                    _ _ _ plain_repr lib loaded_world (s "nothing"))).
    reflexivity.
Defined.

End Instances.
